(** * EnvSync: the sync engine and the client-side encryption contract

    A shallow embedding of
      - backend/app/models/sync.py   (the mapped classes),
      - backend/app/schemas/sync.py  (the request bodies),
      - backend/app/api/sync.py      (push, pull, resolve),
      - backend/app/core/security.py and cli/envsync/crypto.py
    and the properties the specification states about them.

    The database is modelled at the level of the mapped classes: a table
    is a finite map from primary key to row, an attribute that a
    constructor call leaves out holds the default its column declares, a
    many-to-one relationship is the row its foreign key names, and
    [commit] makes the session's pending changes the new table contents.
    Integer columns are unbounded Python integers. *)

From Stdlib Require Import ZArith NArith String List Lia.
From Stdlib Require Strings.Byte.
From stdpp Require Import base option list strings gmap fin_maps.

Local Open Scope Z_scope.
Local Open Scope string_scope.

(** ** Outcomes of a request handler *)

Inductive PyExc : Set :=
  | MultipleResultsFound   (* scalar_one_or_none saw more than one row *)
  | IntegrityError         (* INSERT of a primary key that is taken *)
  | AttributeError         (* attribute assignment on None *)
  | UnicodeEncodeError     (* str.encode on a string the codec rejects *)
  | UnicodeDecodeError     (* bytes.decode on ill-formed input *)
  | BinasciiError          (* base64.b64decode on ill-formed input *)
  | ValueError             (* a library rejected an argument *)
  | InvalidTag.            (* AESGCM.decrypt could not authenticate *)

(** A handler returns a body, raises [HTTPException(status_code, detail)],
    or lets another exception escape. *)
Inductive outcome (A : Type) : Type :=
  | Return (body : A)
  | HTTPException (status_code : Z) (detail : string)
  | Raise (e : PyExc).
Arguments Return {A} body.
Arguments HTTPException {A} status_code detail.
Arguments Raise {A} e.

Definition HTTP_404_NOT_FOUND : Z := 404.
Definition HTTP_409_CONFLICT : Z := 409.
Definition HTTP_503_SERVICE_UNAVAILABLE : Z := 503.

(** [datetime] values: only their identity matters here. *)
Definition datetime : Set := Z.

(** ** models/sync.py *)

Module SyncStatus.
Inductive t : Set := SYNCED | PENDING | CONFLICT | ERROR.
End SyncStatus.

Module ConflictResolution.
Inductive t : Set := LOCAL_WINS | REMOTE_WINS | MERGED | MANUAL | PENDING.
End ConflictResolution.

(** A row of [sync_states]; the primary key [id] is the key of the table
    map. *)
Module SyncState.
Record t : Type := mk {
  user_id : string;
  entity_type : string;
  entity_id : string;
  local_version : Z;
  remote_version : Z;
  base_version : Z;
  local_hash : option string;
  remote_hash : option string;
  status : SyncStatus.t;
  veilcloud_path : option string;
  veilcloud_etag : option string;
  last_local_change : option datetime;
  last_remote_change : option datetime;
  last_sync_at : option datetime;
  last_sync_error : option string;
}.

(** [SyncState(id=.., user_id=.., entity_type=.., entity_id=..,
    veilcloud_path=..)]: the other columns take their defaults. *)
Definition new (user_id entity_type entity_id : string)
    (veilcloud_path : string) : t :=
  {| user_id := user_id; entity_type := entity_type;
     entity_id := entity_id;
     local_version := 0; remote_version := 0; base_version := 0;
     local_hash := None; remote_hash := None;
     status := SyncStatus.PENDING;
     veilcloud_path := Some veilcloud_path; veilcloud_etag := None;
     last_local_change := None; last_remote_change := None;
     last_sync_at := None; last_sync_error := None |}.

Definition set_status (v : SyncStatus.t) (s : t) : t :=
  mk (user_id s) (entity_type s) (entity_id s) (local_version s)
     (remote_version s) (base_version s) (local_hash s) (remote_hash s)
     v (veilcloud_path s) (veilcloud_etag s) (last_local_change s)
     (last_remote_change s) (last_sync_at s) (last_sync_error s).
Definition set_local_version (v : Z) (s : t) : t :=
  mk (user_id s) (entity_type s) (entity_id s) v
     (remote_version s) (base_version s) (local_hash s) (remote_hash s)
     (status s) (veilcloud_path s) (veilcloud_etag s) (last_local_change s)
     (last_remote_change s) (last_sync_at s) (last_sync_error s).
Definition set_remote_version (v : Z) (s : t) : t :=
  mk (user_id s) (entity_type s) (entity_id s) (local_version s)
     v (base_version s) (local_hash s) (remote_hash s)
     (status s) (veilcloud_path s) (veilcloud_etag s) (last_local_change s)
     (last_remote_change s) (last_sync_at s) (last_sync_error s).
Definition set_base_version (v : Z) (s : t) : t :=
  mk (user_id s) (entity_type s) (entity_id s) (local_version s)
     (remote_version s) v (local_hash s) (remote_hash s)
     (status s) (veilcloud_path s) (veilcloud_etag s) (last_local_change s)
     (last_remote_change s) (last_sync_at s) (last_sync_error s).
Definition set_local_hash (v : option string) (s : t) : t :=
  mk (user_id s) (entity_type s) (entity_id s) (local_version s)
     (remote_version s) (base_version s) v (remote_hash s)
     (status s) (veilcloud_path s) (veilcloud_etag s) (last_local_change s)
     (last_remote_change s) (last_sync_at s) (last_sync_error s).
Definition set_remote_hash (v : option string) (s : t) : t :=
  mk (user_id s) (entity_type s) (entity_id s) (local_version s)
     (remote_version s) (base_version s) (local_hash s) v
     (status s) (veilcloud_path s) (veilcloud_etag s) (last_local_change s)
     (last_remote_change s) (last_sync_at s) (last_sync_error s).
Definition set_last_sync_at (v : option datetime) (s : t) : t :=
  mk (user_id s) (entity_type s) (entity_id s) (local_version s)
     (remote_version s) (base_version s) (local_hash s) (remote_hash s)
     (status s) (veilcloud_path s) (veilcloud_etag s) (last_local_change s)
     (last_remote_change s) v (last_sync_error s).
Definition set_last_local_change (v : option datetime) (s : t) : t :=
  mk (user_id s) (entity_type s) (entity_id s) (local_version s)
     (remote_version s) (base_version s) (local_hash s) (remote_hash s)
     (status s) (veilcloud_path s) (veilcloud_etag s) v
     (last_remote_change s) (last_sync_at s) (last_sync_error s).
End SyncState.

(** A row of [sync_conflicts], keyed by its [id] in the table map. *)
Module SyncConflict.
Record t : Type := mk {
  sync_state_id : string;
  local_data : string;
  remote_data : string;
  base_data : option string;
  resolution : ConflictResolution.t;
  resolved_data : option string;
  resolved_by_id : option string;
  detected_at : datetime;
  resolved_at : option datetime;
}.

(** [SyncConflict(id=.., sync_state_id=.., local_data=..,
    remote_data=..)]; [detected_at] defaults to [datetime.utcnow]. *)
Definition new (sync_state_id local_data remote_data : string)
    (utcnow : datetime) : t :=
  {| sync_state_id := sync_state_id; local_data := local_data;
     remote_data := remote_data; base_data := None;
     resolution := ConflictResolution.PENDING;
     resolved_data := None; resolved_by_id := None;
     detected_at := utcnow; resolved_at := None |}.

Definition set_resolution (v : ConflictResolution.t) (c : t) : t :=
  mk (sync_state_id c) (local_data c) (remote_data c) (base_data c)
     v (resolved_data c) (resolved_by_id c) (detected_at c) (resolved_at c).
Definition set_resolved_data (v : option string) (c : t) : t :=
  mk (sync_state_id c) (local_data c) (remote_data c) (base_data c)
     (resolution c) v (resolved_by_id c) (detected_at c) (resolved_at c).
Definition set_resolved_by_id (v : option string) (c : t) : t :=
  mk (sync_state_id c) (local_data c) (remote_data c) (base_data c)
     (resolution c) (resolved_data c) v (detected_at c) (resolved_at c).
Definition set_resolved_at (v : option datetime) (c : t) : t :=
  mk (sync_state_id c) (local_data c) (remote_data c) (base_data c)
     (resolution c) (resolved_data c) (resolved_by_id c) (detected_at c) v.
End SyncConflict.

(** The two tables the sync routes touch. *)
Record Database : Type := mkDatabase {
  sync_states : gmap string SyncState.t;
  sync_conflicts : gmap string SyncConflict.t;
}.

(** ** schemas/sync.py *)

Module SyncPush.
Record t : Type := mk {
  entity_type : string;
  entity_id : string;
  data : string;
  local_version : Z;
  checksum : string;
}.
End SyncPush.

(** One element of [SyncPull.entities], in the documented shape
    [{ "type": .., "id": .., "version": 5 }]; the [version] key may be
    absent. *)
Module PullEntity.
Record t : Type := mk {
  type : string;
  id : string;
  version : option Z;
}.
(** [entity.get("version", 0)] *)
Definition get_version (e : t) : Z := default 0 (version e).
End PullEntity.

Module ConflictResolutionBody.
Record t : Type := mk {
  conflict_id : string;
  resolution : ConflictResolution.t;
  resolved_data : option string;
}.
End ConflictResolutionBody.

(** ** core/config.py: the one setting the routes read *)
Record Settings : Type := mkSettings {
  VEILCLOUD_API_KEY : option string;
}.

(** Truth value of an [Optional[str]]: [None] and the empty string are
    false. *)
Definition truthy (o : option string) : bool :=
  match o with
  | None => false
  | Some s => negb (String.eqb s "")
  end.

(** ** api/sync.py *)

(** [result.scalar_one_or_none()] *)
Definition scalar_one_or_none {A : Type} (rows : list A) : PyExc + option A :=
  match rows with
  | [] => inr None
  | [row] => inr (Some row)
  | _ :: _ :: _ => inl MultipleResultsFound
  end.

(** The three [where] clauses of the SyncState lookup. *)
Definition where_entity (user_id entity_type entity_id : string)
    (s : SyncState.t) : bool :=
  String.eqb (SyncState.user_id s) user_id
  && String.eqb (SyncState.entity_type s) entity_type
  && String.eqb (SyncState.entity_id s) entity_id.

(** [select(SyncState).where(..).where(..).where(..)]: the matching rows
    with their primary keys. *)
Definition select_sync_state (user_id entity_type entity_id : string)
    (db : Database) : list (string * SyncState.t) :=
  map_to_list
    (filter (λ kv, Is_true (where_entity user_id entity_type entity_id kv.2))
       (sync_states db)).

(** [select(SyncConflict).join(SyncState).where(SyncConflict.id == cid)
    .where(SyncState.user_id == uid)]: the join follows the foreign key
    [sync_state_id]. *)
Definition joined_owner (user_id : string) (db : Database)
    (c : SyncConflict.t) : bool :=
  match sync_states db !! SyncConflict.sync_state_id c with
  | Some s => String.eqb (SyncState.user_id s) user_id
  | None => false
  end.

Definition select_conflict (conflict_id user_id : string) (db : Database)
    : list (string * SyncConflict.t) :=
  map_to_list
    (filter (λ kv, Is_true (String.eqb kv.1 conflict_id
                            && joined_owner user_id db kv.2))
       (sync_conflicts db)).

(** What the session writes at [commit]: a pending object is inserted
    under its primary key, a loaded one is updated in place. *)
Definition flush_sync_state (pending : bool) (id : string) (s : SyncState.t)
    (db : Database) : PyExc + Database :=
  if pending && bool_decide (is_Some (sync_states db !! id))
  then inl IntegrityError
  else inr (mkDatabase (<[id := s]> (sync_states db)) (sync_conflicts db)).

Definition insert_sync_conflict (id : string) (c : SyncConflict.t)
    (db : Database) : PyExc + Database :=
  if bool_decide (is_Some (sync_conflicts db !! id))
  then inl IntegrityError
  else inr (mkDatabase (sync_states db) (<[id := c]> (sync_conflicts db))).

Definition update_sync_conflict (id : string) (c : SyncConflict.t)
    (db : Database) : Database :=
  mkDatabase (sync_states db) (<[id := c]> (sync_conflicts db)).

(** The values a push request draws from its environment: the two
    [uuid.uuid4()] results and the clock readings. *)
Record PushEnv : Type := mkPushEnv {
  state_uuid : string;
  conflict_uuid : string;
  utcnow : datetime;
  now_sync : datetime;
  now_local_change : datetime;
}.

Record PushResponse : Type := mkPushResponse {
  push_success : bool;
  push_version : Z;
}.

(** The test under [# Check for conflicts]. *)
Definition conflict_detected (sync_state : SyncState.t) (data : SyncPush.t)
    : bool :=
  (SyncState.remote_version sync_state >? SyncState.base_version sync_state)%Z
  && (SyncPush.local_version data <=? SyncState.base_version sync_state)%Z.

(** The assignments after [# TODO: Push to VeilCloud]. *)
Definition accept_push (data : SyncPush.t) (env : PushEnv)
    (sync_state : SyncState.t) : SyncState.t :=
  SyncState.set_last_local_change (Some (now_local_change env))
   (SyncState.set_last_sync_at (Some (now_sync env))
    (SyncState.set_status SyncStatus.SYNCED
     (SyncState.set_remote_hash (Some (SyncPush.checksum data))
      (SyncState.set_local_hash (Some (SyncPush.checksum data))
       (SyncState.set_base_version (SyncPush.local_version data)
        (SyncState.set_remote_version (SyncPush.local_version data)
         (SyncState.set_local_version (SyncPush.local_version data)
            sync_state))))))).

(** The statements under [# Get or create sync state]: whether the
    object is pending insertion, its primary key, and the object. *)
Definition get_or_create (current_user : string) (data : SyncPush.t)
    (env : PushEnv) (db : Database) : PyExc + (bool * string * SyncState.t) :=
  match scalar_one_or_none
          (select_sync_state current_user (SyncPush.entity_type data)
             (SyncPush.entity_id data) db) with
  | inl e => inl e
  | inr (Some (id, sync_state)) => inr (false, id, sync_state)
  | inr None =>
    inr (true, state_uuid env,
         SyncState.new current_user (SyncPush.entity_type data)
           (SyncPush.entity_id data)
           (SyncPush.entity_type data ++ "s/" ++ SyncPush.entity_id data))
  end.

(** [POST /push] *)
Definition push_changes (settings : Settings) (current_user : string)
    (data : SyncPush.t) (env : PushEnv) (db : Database)
    : outcome PushResponse * Database :=
  if negb (truthy (VEILCLOUD_API_KEY settings)) then
    (HTTPException HTTP_503_SERVICE_UNAVAILABLE "VeilCloud sync not configured",
     db)
  else
    match get_or_create current_user data env db with
    | inl e => (Raise e, db)
    | inr (pending, id, sync_state) =>
      if conflict_detected sync_state data then
        (* Conflict detected *)
        let conflict :=
          SyncConflict.new id (SyncPush.data data) "" (utcnow env) in
        let sync_state := SyncState.set_status SyncStatus.CONFLICT sync_state in
        match flush_sync_state pending id sync_state db with
        | inl e => (Raise e, db)
        | inr db1 =>
          match insert_sync_conflict (conflict_uuid env) conflict db1 with
          | inl e => (Raise e, db)
          | inr db2 =>
            (HTTPException HTTP_409_CONFLICT "Sync conflict detected", db2)
          end
        end
      else
        let sync_state := accept_push data env sync_state in
        match flush_sync_state pending id sync_state db with
        | inl e => (Raise e, db)
        | inr db1 =>
          (Return (mkPushResponse true (SyncPush.local_version data)), db1)
        end
    end.

Record PullUpdate : Type := mkPullUpdate {
  update_type : string;
  update_id : string;
  update_version : Z;
  update_data : string;
}.

(** The body of [for entity in data.entities], with [updates] the list
    built so far. *)
Fixpoint pull_loop (current_user : string) (db : Database)
    (entities : list PullEntity.t) (updates : list PullUpdate)
    : outcome (list PullUpdate) :=
  match entities with
  | [] => Return updates
  | entity :: entities =>
    match scalar_one_or_none
            (select_sync_state current_user (PullEntity.type entity)
               (PullEntity.id entity) db) with
    | inl e => Raise e
    | inr sync_state =>
      let updates :=
        match sync_state with
        | Some (_, sync_state) =>
          if (SyncState.remote_version sync_state
              >? PullEntity.get_version entity)%Z
          then (updates ++ [mkPullUpdate (PullEntity.type entity)
                              (PullEntity.id entity)
                              (SyncState.remote_version sync_state) ""])%list
          else updates
        | None => updates
        end in
      pull_loop current_user db entities updates
    end
  end.

(** [POST /pull]; the handler writes nothing. *)
Definition pull_changes (settings : Settings) (current_user : string)
    (entities : list PullEntity.t) (db : Database)
    : outcome (list PullUpdate) :=
  if negb (truthy (VEILCLOUD_API_KEY settings)) then
    HTTPException HTTP_503_SERVICE_UNAVAILABLE "VeilCloud sync not configured"
  else pull_loop current_user db entities [].

(** The four assignments to the conflict in [resolve_conflict]. *)
Definition apply_resolution (data : ConflictResolutionBody.t)
    (current_user : string) (now : datetime) (conflict : SyncConflict.t)
    : SyncConflict.t :=
  SyncConflict.set_resolved_at (Some now)
   (SyncConflict.set_resolved_by_id (Some current_user)
    (SyncConflict.set_resolved_data
       (ConflictResolutionBody.resolved_data data)
     (SyncConflict.set_resolution
        (ConflictResolutionBody.resolution data) conflict))).

(** [POST /conflicts/{conflict_id}/resolve]; [now] is the clock reading
    stored in [resolved_at]. The path parameter selects the conflict, the
    body's own [conflict_id] is not read. *)
Definition resolve_conflict (conflict_id : string)
    (data : ConflictResolutionBody.t) (current_user : string)
    (now : datetime) (db : Database) : outcome bool * Database :=
  match scalar_one_or_none (select_conflict conflict_id current_user db) with
  | inl e => (Raise e, db)
  | inr None => (HTTPException HTTP_404_NOT_FOUND "Conflict not found", db)
  | inr (Some (cid, conflict)) =>
    let conflict := apply_resolution data current_user now conflict in
    (* Update sync state *)
    match sync_states db !! SyncConflict.sync_state_id conflict with
    | None => (Raise AttributeError, db)
    | Some sync_state =>
      let sync_state := SyncState.set_status SyncStatus.SYNCED sync_state in
      let db1 := update_sync_conflict cid conflict db in
      match flush_sync_state false (SyncConflict.sync_state_id conflict)
              sync_state db1 with
      | inl e => (Raise e, db)
      | inr db2 => (Return true, db2)
      end
    end
  end.

(** The database after a successful resolve of conflict [cid], whose
    stored row is [c] and whose SyncState is [s]. *)
Definition resolved_db (cid : string) (data : ConflictResolutionBody.t)
    (u : string) (now : datetime) (c : SyncConflict.t) (s : SyncState.t)
    (db : Database) : Database :=
  mkDatabase
    (<[SyncConflict.sync_state_id c
       := SyncState.set_status SyncStatus.SYNCED s]> (sync_states db))
    (<[cid := apply_resolution data u now c]> (sync_conflicts db)).

(** ** Requests as steps of the store *)

(** The three operations on the store, each with what it reads from its
    environment. *)
Inductive Request : Type :=
  | Push (current_user : string) (data : SyncPush.t) (env : PushEnv)
  | Pull (current_user : string) (entities : list PullEntity.t)
  | Resolve (conflict_id : string) (data : ConflictResolutionBody.t)
      (current_user : string) (now : datetime).

Definition step (settings : Settings) (db : Database) (r : Request)
    : Database :=
  match r with
  | Push current_user data env =>
    snd (push_changes settings current_user data env db)
  | Pull _ _ => db
  | Resolve conflict_id data current_user now =>
    snd (resolve_conflict conflict_id data current_user now db)
  end.

Definition run (settings : Settings) (db : Database) (rs : list Request)
    : Database :=
  fold_left (step settings) rs db.

(** A push that the handler accepts and that claims a version below the
    stored [remote_version]. *)
Definition regressing_push (current_user : string) (data : SyncPush.t)
    (db : Database) : bool :=
  existsb
    (λ kv : string * SyncState.t,
       negb (conflict_detected kv.2 data)
       && (SyncPush.local_version data <? SyncState.remote_version kv.2)%Z)
    (select_sync_state current_user (SyncPush.entity_type data)
       (SyncPush.entity_id data) db).

(** No request of the sequence is a regressing push at the moment it is
    served. *)
Fixpoint no_regressing_push (settings : Settings) (db : Database)
    (rs : list Request) : bool :=
  match rs with
  | [] => true
  | r :: rs =>
    match r with
    | Push current_user data _ => negb (regressing_push current_user data db)
    | _ => true
    end && no_regressing_push settings (step settings db r) rs
  end.

(** One stored row is below another when it has the same place in the
    table and at most its [remote_version]. *)
Definition remote_le (db db' : Database) : Prop :=
  ∀ id s, sync_states db !! id = Some s →
    ∃ s', sync_states db' !! id = Some s'
          ∧ (SyncState.remote_version s ≤ SyncState.remote_version s')%Z.

(** The data-model invariant "one row per (user, entity type, entity
    id)": rows that name the same entity for the same user are the same
    row. *)
Definition same_entity (s1 s2 : SyncState.t) : Prop :=
  SyncState.user_id s1 = SyncState.user_id s2
  ∧ SyncState.entity_type s1 = SyncState.entity_type s2
  ∧ SyncState.entity_id s1 = SyncState.entity_id s2.

Definition one_row_per_entity (db : Database) : Prop :=
  ∀ id1 id2 s1 s2,
    sync_states db !! id1 = Some s1 → sync_states db !! id2 = Some s2 →
    same_entity s1 s2 → id1 = id2.

(** Specification of the pull response in the words of the protocol: one
    update for each requested entity whose stored [remote_version] is
    greater than the declared version, none for the others. *)
Definition stale_update (current_user : string) (db : Database)
    (entity : PullEntity.t) : option PullUpdate :=
  match select_sync_state current_user (PullEntity.type entity)
          (PullEntity.id entity) db with
  | [(_, sync_state)] =>
    if bool_decide (SyncState.remote_version sync_state
                    > PullEntity.get_version entity)%Z
    then Some (mkPullUpdate (PullEntity.type entity) (PullEntity.id entity)
                 (SyncState.remote_version sync_state) "")
    else None
  | _ => None
  end.


(** ** api/sync.py: status and conflict listing *)

(** [schemas.VeilCloudStatus] *)
Record VeilCloudStatus : Type := mkVeilCloudStatus {
  connected : bool;
  authenticated : bool;
  last_sync : option datetime;
  storage_used : Z;
  storage_limit : Z;
  error : option string;
}.

(** [x is not None] *)
Definition is_not_None {A : Type} (x : option A) : bool :=
  match x with
  | Some _ => true
  | None => false
  end.

(** [GET /status] *)
Definition get_sync_status (settings : Settings) : VeilCloudStatus :=
  mkVeilCloudStatus
    (is_not_None (VEILCLOUD_API_KEY settings))
    (is_not_None (VEILCLOUD_API_KEY settings))
    None
    0
    (1024 * 1024 * 100)
    (if truthy (VEILCLOUD_API_KEY settings) then None
     else Some "VeilCloud not configured").









(** Every row has [remote_version] equal to [base_version]. *)
Definition remote_at_base (db : Database) : Prop :=
  ∀ id s, sync_states db !! id = Some s →
    SyncState.remote_version s = SyncState.base_version s.

(** ** api/sync.py: the bulk sync route and the audit trail *)

From stdpp Require pretty.

(** The columns the route reads or assigns, with the clock columns that
    the mapper fills on its own left out, as for [SyncState]. *)
Module User.
Record t : Type := mk {
  id : string;
  email : string;
}.
End User.

(** A row of [projects], keyed by its [id] in the table map. *)
Module Project.
Record t : Type := mk {
  name : string;
  owner_id : string;
  sync_enabled : bool;
  last_synced_at : option datetime;
  sync_version : Z;
}.

Definition set_sync_enabled (v : bool) (p : t) : t :=
  mk (name p) (owner_id p) v (last_synced_at p) (sync_version p).
Definition set_last_synced_at (v : option datetime) (p : t) : t :=
  mk (name p) (owner_id p) (sync_enabled p) v (sync_version p).
End Project.

(** A row of [audit_logs]. *)
Module AuditLog.
Record t : Type := mk {
  user_id : option string;
  user_email : string;
  action : string;
  resource_type : string;
  details : option string;
  severity : string;
}.

(** [AuditLog(id=.., user_id=.., user_email=.., action=..,
    resource_type=.., details=..)] *)
Definition new (user_id user_email action resource_type details : string)
    : t :=
  mk (Some user_id) user_email action resource_type (Some details) "info".
End AuditLog.

(** [schemas.SyncRequest] *)
Module SyncRequest.
Record t : Type := mk {
  project_ids : option (list string);
  force : bool;
}.
End SyncRequest.

(** [schemas.SyncResponse] *)
Module SyncResponse.
Record t : Type := mk {
  success : bool;
  pushed : Z;
  pulled : Z;
  conflicts : Z;
  errors : list string;
  sync_time : datetime;
}.
End SyncResponse.

(** core/config.py: the two settings the bulk route reads. *)
Record AppSettings : Type := mkAppSettings {
  sync_settings : Settings;
  AUDIT_LOG_ENABLED : bool;
}.

(** The tables the bulk route works on. *)
Module Store.
Record t : Type := mk {
  sync : Database;
  projects : gmap string Project.t;
  audit_logs : gmap string AuditLog.t;
}.
End Store.

(** What the route draws from its environment: the results of
    [uuid.uuid4()] and the readings of [datetime.now(timezone.utc)], in
    the order of the calls. *)
Module SyncEnv.
Record t : Type := mk {
  uuid4 : nat → string;
  now : nat → datetime;
}.
End SyncEnv.

(** [str(e)] for the exception of the lookup, the only one raised
    inside the [try]. *)
Definition str_exc (e : PyExc) : string :=
  match e with
  | MultipleResultsFound =>
    "Multiple rows were found when one or none was required"
  | _ => ""
  end.

(** [select(Project).where(Project.owner_id == current_user.id)], with
    [.where(Project.id.in_(data.project_ids))] when the request names
    projects; [None] and the empty list name none. *)
Definition where_project (current_user : User.t) (data : SyncRequest.t)
    (kv : string * Project.t) : bool :=
  String.eqb (Project.owner_id kv.2) (User.id current_user)
  && match SyncRequest.project_ids data with
     | Some (id :: ids) => bool_decide (kv.1 ∈ id :: ids)
     | Some [] | None => true
     end.

Definition select_projects (current_user : User.t) (data : SyncRequest.t)
    (projects : gmap string Project.t) : list (string * Project.t) :=
  map_to_list (filter (λ kv, Is_true (where_project current_user data kv))
                 projects).

(** The four assignments to the SyncState under [# For now, just mark
    as synced]. *)
Definition mark_synced (project : Project.t) (at_ : datetime)
    (sync_state : SyncState.t) : SyncState.t :=
  SyncState.set_remote_version (Project.sync_version project)
   (SyncState.set_local_version (Project.sync_version project)
    (SyncState.set_last_sync_at (Some at_)
     (SyncState.set_status SyncStatus.SYNCED sync_state))).

(** The variables of the loop: the tables as the session holds them, the
    counter, the error list, and how many UUIDs and clock readings were
    drawn. *)
Module SyncLoop.
Record t : Type := mk {
  store : Store.t;
  pushed : Z;
  errors : list string;
  uuids : nat;
  ticks : nat;
}.
End SyncLoop.

(** The body of [for project in projects]. What the lookup raises is
    caught and recorded in [errors]. A drawn UUID that is already a
    primary key makes the session's flush fail; the failure ends the
    request with an exception (at the latest at [commit]) and nothing is
    stored, which is reported here as [IntegrityError]. *)
Definition sync_project (current_user : User.t) (env : SyncEnv.t)
    (row : string * Project.t) (st : SyncLoop.t) : PyExc + SyncLoop.t :=
  let project_id := row.1 in
  let project := row.2 in
  let store := SyncLoop.store st in
  match scalar_one_or_none
          (select_sync_state (User.id current_user) "project" project_id
             (Store.sync store)) with
  | inl e =>
    inr (SyncLoop.mk store (SyncLoop.pushed st)
           (SyncLoop.errors st
            ++ [("Project " ++ Project.name project ++ ": "
                 ++ str_exc e)%string])%list
           (SyncLoop.uuids st) (SyncLoop.ticks st))
  | inr found =>
    let '(pending, id, sync_state, uuids) :=
      match found with
      | Some (id, sync_state) => (false, id, sync_state, SyncLoop.uuids st)
      | None =>
        (true, SyncEnv.uuid4 env (SyncLoop.uuids st),
         SyncState.new (User.id current_user) "project" project_id
           ("projects/" ++ project_id),
         S (SyncLoop.uuids st))
      end in
    let sync_state :=
      mark_synced project (SyncEnv.now env (SyncLoop.ticks st)) sync_state in
    let project :=
      Project.set_last_synced_at
        (Some (SyncEnv.now env (S (SyncLoop.ticks st))))
        (Project.set_sync_enabled true project) in
    match flush_sync_state pending id sync_state (Store.sync store) with
    | inl e => inl e
    | inr db =>
      inr (SyncLoop.mk
             (Store.mk db (<[project_id := project]> (Store.projects store))
                (Store.audit_logs store))
             (SyncLoop.pushed st + 1) (SyncLoop.errors st) uuids
             (S (S (SyncLoop.ticks st))))
    end
  end.

Fixpoint sync_loop (current_user : User.t) (env : SyncEnv.t)
    (projects : list (string * Project.t)) (st : SyncLoop.t)
    : PyExc + SyncLoop.t :=
  match projects with
  | [] => inr st
  | row :: projects =>
    match sync_project current_user env row st with
    | inl e => inl e
    | inr st => sync_loop current_user env projects st
    end
  end.

(** [_log_action(db, user, action, details)], with [id] the UUID it
    draws. *)
Definition _log_action (settings : AppSettings) (user : User.t)
    (action details : string) (id : string)
    (audit_logs : gmap string AuditLog.t)
    : PyExc + gmap string AuditLog.t :=
  if negb (AUDIT_LOG_ENABLED settings) then inr audit_logs
  else if bool_decide (is_Some (audit_logs !! id)) then inl IntegrityError
  else inr (<[id := AuditLog.new (User.id user) (User.email user) action
                      "sync" details]> audit_logs).

(** [POST /sync] *)
Definition sync_projects (settings : AppSettings) (current_user : User.t)
    (data : SyncRequest.t) (env : SyncEnv.t) (store : Store.t)
    : outcome SyncResponse.t * Store.t :=
  if negb (truthy (VEILCLOUD_API_KEY (sync_settings settings))) then
    (HTTPException HTTP_503_SERVICE_UNAVAILABLE "VeilCloud sync not configured",
     store)
  else
    let projects :=
      select_projects current_user data (Store.projects store) in
    let pulled := 0%Z in
    let conflicts := 0%Z in
    match sync_loop current_user env projects
            (SyncLoop.mk store 0 [] 0 0) with
    | inl e => (Raise e, store)
    | inr st =>
      match _log_action settings current_user "sync.complete"
              (pretty.pretty (SyncLoop.pushed st) ++ " pushed, "
               ++ pretty.pretty pulled ++ " pulled")
              (SyncEnv.uuid4 env (SyncLoop.uuids st))
              (Store.audit_logs (SyncLoop.store st)) with
      | inl e => (Raise e, store)
      | inr audit_logs =>
        (Return (SyncResponse.mk
                   (Nat.eqb (length (SyncLoop.errors st)) 0)
                   (SyncLoop.pushed st) pulled conflicts
                   (SyncLoop.errors st)
                   (SyncEnv.now env (SyncLoop.ticks st))),
         Store.mk (Store.sync (SyncLoop.store st))
           (Store.projects (SyncLoop.store st)) audit_logs)
      end
    end.

(** The drawn UUIDs are pairwise distinct and none is a primary key of
    the two tables that receive new rows. *)
Definition fresh_uuids (env : SyncEnv.t) (store : Store.t) : Prop :=
  (∀ i j, SyncEnv.uuid4 env i = SyncEnv.uuid4 env j → i = j)
  ∧ (∀ i, sync_states (Store.sync store) !! SyncEnv.uuid4 env i = None)
  ∧ (∀ i, Store.audit_logs store !! SyncEnv.uuid4 env i = None).

(** The [base_version] of the entity's row, 0 when it has none yet. *)
Definition base_of (user_id entity_type entity_id : string) (db : Database)
    : Z :=
  match select_sync_state user_id entity_type entity_id db with
  | [(_, sync_state)] => SyncState.base_version sync_state
  | _ => 0
  end.

(** ** Python values of the crypto helpers *)

(** [bytes], and [str] as its sequence of code points (each below
    1114112 in a Python string). *)
Definition bytes : Type := list Byte.byte.
Definition str : Type := list N.

Definition byte_of_N (n : N) : Byte.byte := default Byte.x00 (Byte.of_N n).

(** A call that returns or raises, with the sequencing of statements:
    the first exception ends the call. *)
Abbreviation raises A := (PyExc + A)%type (only parsing).

#[global] Instance raises_bind : MBind (sum PyExc) :=
  λ A B k r, match r with inl e => inl e | inr a => k a end.

Definition map_ok {A B : Type} (f : A → B) (r : raises A) : raises B :=
  x ← r; inr (f x).

(** *** [str.encode] and [bytes.decode] for "utf-8" and "ascii" *)

Local Open Scope N_scope.

(** A code point in the surrogate range U+D800..U+DFFF. *)
Definition is_surrogate (c : N) : bool := (55296 <=? c) && (c <=? 57343).

(** A Unicode scalar value: a code point that is not a surrogate. *)
Definition is_scalar_value (c : N) : bool :=
  (c <? 1114112) && negb (is_surrogate c).

(** Text made of scalar values only. *)
Definition well_formed_text (s : str) : bool := forallb is_scalar_value s.

(** The strict UTF-8 encoder: one to four bytes per code point, and
    [UnicodeEncodeError] on a surrogate. *)
Definition utf8_encode_char (c : N) : raises bytes :=
  if c <? 128 then inr [byte_of_N c]
  else if c <? 2048 then
    inr [byte_of_N (192 + c / 64); byte_of_N (128 + c mod 64)]
  else if c <? 65536 then
    if is_surrogate c then inl UnicodeEncodeError
    else inr [byte_of_N (224 + c / 4096);
              byte_of_N (128 + (c / 64) mod 64);
              byte_of_N (128 + c mod 64)]
  else if c <? 1114112 then
    inr [byte_of_N (240 + c / 262144);
         byte_of_N (128 + (c / 4096) mod 64);
         byte_of_N (128 + (c / 64) mod 64);
         byte_of_N (128 + c mod 64)]
  else inl UnicodeEncodeError.

Fixpoint utf8_encode (s : str) : raises bytes :=
  match s with
  | [] => inr []
  | c :: s =>
    b ← utf8_encode_char c;
    bs ← utf8_encode s;
    inr (b ++ bs)%list
  end.

(** A continuation byte, 10xxxxxx. *)
Definition is_continuation (b : Byte.byte) : bool :=
  (128 <=? Byte.to_N b) && (Byte.to_N b <? 192).

(** The strict UTF-8 decoder: rejects stray continuation bytes, truncated
    and overlong sequences, surrogates and values above U+10FFFF. *)
Fixpoint utf8_decode (bs : bytes) : raises str :=
  match bs with
  | [] => inr []
  | b0 :: r0 =>
    let n0 := Byte.to_N b0 in
    if n0 <? 128 then map_ok (cons n0) (utf8_decode r0)
    else if n0 <? 194 then inl UnicodeDecodeError
    else if n0 <? 224 then
      match r0 with
      | b1 :: r1 =>
        if is_continuation b1 then
          map_ok (cons ((n0 - 192) * 64 + (Byte.to_N b1 - 128)))
            (utf8_decode r1)
        else inl UnicodeDecodeError
      | _ => inl UnicodeDecodeError
      end
    else if n0 <? 240 then
      match r0 with
      | b1 :: b2 :: r2 =>
        let c := (n0 - 224) * 4096 + (Byte.to_N b1 - 128) * 64
                 + (Byte.to_N b2 - 128) in
        if is_continuation b1 && is_continuation b2
           && negb (c <? 2048) && negb (is_surrogate c)
        then map_ok (cons c) (utf8_decode r2)
        else inl UnicodeDecodeError
      | _ => inl UnicodeDecodeError
      end
    else if n0 <? 245 then
      match r0 with
      | b1 :: b2 :: b3 :: r3 =>
        let c := (n0 - 240) * 262144 + (Byte.to_N b1 - 128) * 4096
                 + (Byte.to_N b2 - 128) * 64 + (Byte.to_N b3 - 128) in
        if is_continuation b1 && is_continuation b2 && is_continuation b3
           && negb (c <? 65536) && (c <? 1114112)
        then map_ok (cons c) (utf8_decode r3)
        else inl UnicodeDecodeError
      | _ => inl UnicodeDecodeError
      end
    else inl UnicodeDecodeError
  end.

(** [bytes.decode("ascii")] *)
Fixpoint ascii_decode (bs : bytes) : raises str :=
  match bs with
  | [] => inr []
  | b :: bs =>
    if Byte.to_N b <? 128 then map_ok (cons (Byte.to_N b)) (ascii_decode bs)
    else inl UnicodeDecodeError
  end.

(** [base64] turns a [str] argument into bytes with
    [s.encode("ascii")] and reports a non-ASCII character as
    [ValueError]. *)
Fixpoint ascii_bytes (s : str) : raises bytes :=
  match s with
  | [] => inr []
  | c :: s =>
    if c <? 128 then map_ok (cons (byte_of_N c)) (ascii_bytes s)
    else inl ValueError
  end.

(** *** [base64.b64encode] and [base64.b64decode] *)

(** The standard alphabet: A-Z, a-z, 0-9, [+], [/]. *)
Definition b64_char (i : N) : Byte.byte :=
  byte_of_N
    (if i <? 26 then 65 + i
     else if i <? 52 then 97 + (i - 26)
     else if i <? 62 then 48 + (i - 52)
     else if i =? 62 then 43
     else 47).

Definition b64_index (b : Byte.byte) : option N :=
  let n := Byte.to_N b in
  if (65 <=? n) && (n <=? 90) then Some (n - 65)
  else if (97 <=? n) && (n <=? 122) then Some (n - 97 + 26)
  else if (48 <=? n) && (n <=? 57) then Some (n - 48 + 52)
  else if n =? 43 then Some 62
  else if n =? 47 then Some 63
  else None.

(** The padding character [=]. *)
Definition b64_pad : Byte.byte := byte_of_N 61.

Definition is_pad (b : Byte.byte) : bool := Byte.to_N b =? 61.

Definition is_end (cs : bytes) : bool :=
  match cs with [] => true | _ :: _ => false end.

Fixpoint b64encode (bs : bytes) : bytes :=
  match bs with
  | [] => []
  | [a] =>
    let a := Byte.to_N a in
    [b64_char (a / 4); b64_char (a mod 4 * 16); b64_pad; b64_pad]
  | [a; b] =>
    let a := Byte.to_N a in
    let b := Byte.to_N b in
    [b64_char (a / 4); b64_char (a mod 4 * 16 + b / 16);
     b64_char (b mod 16 * 4); b64_pad]
  | a :: b :: c :: bs =>
    let a := Byte.to_N a in
    let b := Byte.to_N b in
    let c := Byte.to_N c in
    b64_char (a / 4) :: b64_char (a mod 4 * 16 + b / 16)
    :: b64_char (b mod 16 * 4 + c / 64) :: b64_char (c mod 64)
    :: b64encode bs
  end.

(** The decoder on the quanta of four characters that the encoder
    writes, the last one possibly padded; anything else is reported as
    [binascii.Error]. *)
Fixpoint b64decode_quanta (cs : bytes) : raises bytes :=
  match cs with
  | [] => inr []
  | w :: x :: y :: z :: cs =>
    match b64_index w, b64_index x with
    | Some w, Some x =>
      match b64_index y, b64_index z with
      | Some y, Some z =>
        map_ok (λ bs, byte_of_N (w * 4 + x / 16)
                      :: byte_of_N (x mod 16 * 16 + y / 4)
                      :: byte_of_N (y mod 4 * 64 + z) :: bs)
          (b64decode_quanta cs)
      | Some y, None =>
        if is_pad z && is_end cs then
          inr [byte_of_N (w * 4 + x / 16); byte_of_N (x mod 16 * 16 + y / 4)]
        else inl BinasciiError
      | None, _ =>
        if is_pad y && is_pad z && is_end cs then
          inr [byte_of_N (w * 4 + x / 16)]
        else inl BinasciiError
      end
    | _, _ => inl BinasciiError
    end
  | _ => inl BinasciiError
  end.

(** A character of the alphabet, or the padding character. *)
Definition is_b64 (b : Byte.byte) : bool :=
  bool_decide (is_Some (b64_index b)) || is_pad b.

(** [base64.b64decode(s)] on a [str], with the default
    [validate=False]: characters outside the alphabet are discarded
    before the padding is checked. *)
Definition b64decode (s : str) : raises bytes :=
  cs ← ascii_bytes s; b64decode_quanta (filter (λ b, Is_true (is_b64 b)) cs).

Local Close Scope N_scope.

(** *** [secrets.token_bytes] *)

(** The operating system's random source, as the stream of bytes it will
    deliver. *)
Definition Entropy : Type := nat → Byte.byte.

Definition token_bytes (n : nat) (rng : Entropy) : bytes := rng <$> seq 0 n.

(** *** The primitives of [hashlib] and [cryptography] *)

(** [hashlib.pbkdf2_hmac(hash_name, password, salt, iterations, dklen)],
    the constructor [AESGCM(key)], and the methods
    [encrypt(nonce, data, None)] and [decrypt(nonce, data, None)] of the
    object it returns. *)
Class CryptoLib : Type := {
  pbkdf2_hmac : string → bytes → bytes → N → nat → bytes;
  cipher : Type;
  AESGCM : bytes → raises cipher;
  AESGCM_encrypt : cipher → bytes → bytes → raises bytes;
  AESGCM_decrypt : cipher → bytes → bytes → raises bytes;
}.

(** What the libraries document: the derived key has [dklen] bytes, a
    256-bit key is accepted, and under a 96-bit nonce decryption undoes
    encryption. *)
Class CryptoLibLaws (lib : CryptoLib) : Prop := {
  pbkdf2_hmac_length :
    ∀ name password salt iterations dklen,
      length (pbkdf2_hmac name password salt iterations dklen) = dklen;
  AESGCM_decrypt_encrypt :
    ∀ key, length key = 32%nat →
      ∃ aesgcm, AESGCM key = inr aesgcm
        ∧ ∀ nonce data, length nonce = 12%nat →
            ∃ ct, AESGCM_encrypt aesgcm nonce data = inr ct
                  ∧ AESGCM_decrypt aesgcm nonce ct = inr data;
}.

(** ** cli/envsync/crypto.py *)

Module CryptoHelper.
Section WithLib.
Context {lib : CryptoLib}.

Record t : Type := mk { salt : bytes; key : bytes }.

(** [_derive_key(self, password, salt)] *)
Definition _derive_key (password : str) (salt : bytes) : raises bytes :=
  pw ← utf8_encode password;
  inr (pbkdf2_hmac "sha256" pw salt 100000 32).

(** [__init__(self, password, salt=None)]: [salt or token_bytes(16)]
    draws a salt when the argument is [None] or empty. *)
Definition init (password : str) (salt : option bytes) (rng : Entropy)
    : raises t :=
  let salt :=
    match salt with
    | Some (b :: bs) => b :: bs
    | Some [] | None => token_bytes 16 rng
    end in
  key ← _derive_key password salt;
  inr (mk salt key).

(** [encrypt(self, plaintext)]: the pair (encrypted value, nonce), both
    base64 text. *)
Definition encrypt (self : t) (plaintext : str) (rng : Entropy)
    : raises (str * str) :=
  let nonce := token_bytes 12 rng in
  aesgcm ← AESGCM (key self);
  data ← utf8_encode plaintext;
  ciphertext ← AESGCM_encrypt aesgcm nonce data;
  ev ← ascii_decode (b64encode ciphertext);
  n ← ascii_decode (b64encode nonce);
  inr (ev, n).

(** [decrypt(self, encrypted_value, nonce)] *)
Definition decrypt (self : t) (encrypted_value nonce : str) : raises str :=
  ciphertext ← b64decode encrypted_value;
  nonce_bytes ← b64decode nonce;
  aesgcm ← AESGCM (key self);
  plaintext ← AESGCM_decrypt aesgcm nonce_bytes ciphertext;
  utf8_decode plaintext.
End WithLib.
End CryptoHelper.

(** ** backend/app/core/security.py *)

Module Security.
Section WithLib.
Context {lib : CryptoLib}.

(** [derive_key(password, salt)]; [password.encode()] is UTF-8. *)
Definition derive_key (password : str) (salt : bytes) : raises bytes :=
  pw ← utf8_encode password;
  inr (pbkdf2_hmac "sha256" pw salt 100000 32).

(** [encrypt_data(plaintext, key)]: (nonce, ciphertext). *)
Definition encrypt_data (plaintext key : bytes) (rng : Entropy)
    : raises (bytes * bytes) :=
  let nonce := token_bytes 12 rng in
  aesgcm ← AESGCM key;
  ciphertext ← AESGCM_encrypt aesgcm nonce plaintext;
  inr (nonce, ciphertext).

(** [decrypt_data(nonce, ciphertext, key)] *)
Definition decrypt_data (nonce ciphertext key : bytes) : raises bytes :=
  aesgcm ← AESGCM key;
  AESGCM_decrypt aesgcm nonce ciphertext.

(** [encrypt_string(plaintext, key)]: base64(nonce + ciphertext). *)
Definition encrypt_string (plaintext : str) (key : bytes) (rng : Entropy)
    : raises str :=
  data ← utf8_encode plaintext;
  '(nonce, ciphertext) ← encrypt_data data key rng;
  let combined := (nonce ++ ciphertext)%list in
  utf8_decode (b64encode combined).

(** [decrypt_string(encrypted, key)] *)
Definition decrypt_string (encrypted : str) (key : bytes) : raises str :=
  combined ← b64decode encrypted;
  let nonce := take 12 combined in
  let ciphertext := drop 12 combined in
  plaintext ← decrypt_data nonce ciphertext key;
  utf8_decode plaintext.
End WithLib.
End Security.

(** ** cli/envsync/crypto.py: salts and password hashes *)

#[global] Instance byte_eq_dec : EqDecision Byte.byte := Byte.byte_eq_dec.

(** [secrets.compare_digest(a, b)] on bytes: whether they are equal. *)
Definition compare_digest (a b : bytes) : bool := bool_decide (a = b).

(** The stream that is left once [n] bytes were drawn. *)
Definition after_draw (n : nat) (rng : Entropy) : Entropy :=
  λ i, rng (n + i)%nat.

Module Cli.
Section WithLib.
Context {lib : CryptoLib}.

(** [CryptoHelper.get_salt_b64(self)] *)
Definition get_salt_b64 (self : CryptoHelper.t) : raises str :=
  ascii_decode (b64encode (CryptoHelper.salt self)).

(** [CryptoHelper.from_salt_b64(cls, password, salt_b64)] *)
Definition from_salt_b64 (password salt_b64 : str) (rng : Entropy)
    : raises CryptoHelper.t :=
  salt ← b64decode salt_b64;
  CryptoHelper.init password (Some salt) rng.

(** [generate_salt()] *)
Definition generate_salt (rng : Entropy) : raises str :=
  ascii_decode (b64encode (token_bytes 16 rng)).

(** [hash_password(password)]; [pbkdf2_hmac] without [dklen] returns the
    digest size of the hash, 32 bytes for SHA-256. *)
Definition hash_password (password : str) (rng : Entropy) : raises str :=
  let salt := token_bytes 16 rng in
  pw ← utf8_encode password;
  let key := pbkdf2_hmac "sha256" pw salt 100000 32 in
  ascii_decode (b64encode (salt ++ key)%list).

(** [verify_password(password, stored_hash)] *)
Definition verify_password (password stored_hash : str) : raises bool :=
  decoded ← b64decode stored_hash;
  let salt := take 16 decoded in
  let stored_key := drop 16 decoded in
  pw ← utf8_encode password;
  let key := pbkdf2_hmac "sha256" pw salt 100000 32 in
  inr (compare_digest key stored_key).
End WithLib.
End Cli.

(** ** cli/envsync/main.py: the [.env] format of [push], [pull] and [diff] *)

(** A literal of the source as a [str]. *)
Definition literal (s : string) : str :=
  Ascii.N_of_ascii <$> String.list_ascii_of_string s.

Module Main.
Local Open Scope N_scope.
Local Open Scope list_scope.

(** [str.isspace] on one character: the code points that [str.strip()]
    removes. *)
Definition isspace (c : N) : bool :=
  ((9 <=? c) && (c <=? 13)) || ((28 <=? c) && (c <=? 32))
  || (c =? 133) || (c =? 160) || (c =? 5760)
  || ((8192 <=? c) && (c <=? 8202))
  || (c =? 8232) || (c =? 8233) || (c =? 8239) || (c =? 8287)
  || (c =? 12288).

(** [s.lstrip()], [s.rstrip()], [s.strip()] *)
Fixpoint lstrip (s : str) : str :=
  match s with
  | c :: s' => if isspace c then lstrip s' else s
  | [] => []
  end.
Definition rstrip (s : str) : str := reverse (lstrip (reverse s)).
Definition strip (s : str) : str := rstrip (lstrip s).

(** [s.split(sep)] for a separator of one character. *)
Fixpoint split (sep : N) (s : str) : list str :=
  match s with
  | [] => [[]]
  | c :: s =>
    if c =? sep then [] :: split sep s
    else match split sep s with
         | piece :: pieces => (c :: piece) :: pieces
         | [] => [[c]]
         end
  end.

(** [s.split(sep, 1)] when [sep in s]: the text before the first
    separator and the text after it; [None] when [sep not in s]. *)
Fixpoint split_once (sep : N) (s : str) : option (str * str) :=
  match s with
  | [] => None
  | c :: s =>
    if c =? sep then Some ([], s)
    else match split_once sep s with
         | Some (before, after) => Some (c :: before, after)
         | None => None
         end
  end.

(** [sep.join(lines)] for a separator of one character. *)
Fixpoint join (sep : N) (lines : list str) : str :=
  match lines with
  | [] => []
  | [line] => line
  | line :: lines => line ++ sep :: join sep lines
  end.

(** [s.startswith(c)] and [s.endswith(c)] for one character. *)
Definition startswith (c : N) (s : str) : bool :=
  match s with
  | c' :: _ => c' =? c
  | [] => false
  end.
Definition endswith (c : N) (s : str) : bool := startswith c (reverse s).

(** The characters of the format: newline, [#], [=], the two quotes. *)
Definition LF : N := 10.
Definition HASH : N := 35.
Definition EQUALS : N := 61.
Definition DQUOTE : N := 34.
Definition SQUOTE : N := 39.

(** The statements under [# Remove quotes]; [value[1:-1]] drops the
    first and the last character. *)
Definition remove_quotes (value : str) : str :=
  if startswith DQUOTE value && endswith DQUOTE value
  then drop 1 (take (length value - 1) value)
  else if startswith SQUOTE value && endswith SQUOTE value
  then drop 1 (take (length value - 1) value)
  else value.

(** One turn of the loop of [push] over the lines of the file: the
    variable the line gives, if any. *)
Definition parse_line (line : str) : option (str * str) :=
  let line := strip line in
  if bool_decide (line = []) || startswith HASH line then None
  else
    match split_once EQUALS line with
    | None => None
    | Some (key, value) =>
      let key := strip key in
      let value := strip value in
      Some (key, remove_quotes value)
    end.

(** [# Parse .env file] in [push]: the list [variables]. *)
Definition parse_env (content : str) : list (str * str) :=
  omap parse_line (split LF (strip content)).

(** One turn of the loop of [diff] under [# Parse local file]. *)
Definition diff_line (line : str) : option str :=
  let line := strip line in
  if bool_decide (line = []) || startswith HASH line then None
  else
    match split_once EQUALS line with
    | None => None
    | Some (key, _) => Some (strip key)
    end.

(** The set [local_keys] of [diff]. *)
Definition local_keys (content : str) : gset str :=
  list_to_set (omap diff_line (split LF (strip content))).

(** A variable as the API returns and takes it. *)
Record Var : Type := mkVar {
  key : str;
  encrypted_value : str;
  value_nonce : str;
}.

Section WithLib.
Context {lib : CryptoLib}.

(** One turn of the loop of [pull] under [# Decrypt variables]: any
    exception of [decrypt] gives the comment line. *)
Definition pull_line (crypto : CryptoHelper.t) (var : Var) : str :=
  match CryptoHelper.decrypt crypto (encrypted_value var) (value_nonce var)
  with
  | inr decrypted => key var ++ EQUALS :: decrypted
  | inl _ => literal "# " ++ key var ++ literal "=<decryption failed>"
  end.

(** The variable a stored one stands for, if [decrypt] returns. *)
Definition decrypted (crypto : CryptoHelper.t) (var : Var)
    : option (str * str) :=
  match CryptoHelper.decrypt crypto (encrypted_value var) (value_nonce var)
  with
  | inr value => Some (key var, value)
  | inl _ => None
  end.

(** The text [pull] writes or prints, none when there are no
    variables: [CryptoHelper(password)] draws a salt, and the lines are
    joined by newlines. *)
Definition pull (password : str) (variables : list Var) (rng : Entropy)
    : raises (option str) :=
  match variables with
  | [] => inr None
  | _ :: _ =>
    crypto ← CryptoHelper.init password None rng;
    inr (Some (join LF (pull_line crypto <$> variables)))
  end.

(** The loop of [push] under [# Encrypt and push variables]; each call
    of [encrypt] draws a nonce of 12 bytes. *)
Fixpoint encrypt_variables (crypto : CryptoHelper.t)
    (variables : list (str * str)) (rng : Entropy) : raises (list Var) :=
  match variables with
  | [] => inr []
  | var :: variables =>
    '(encrypted, nonce) ← CryptoHelper.encrypt crypto var.2 rng;
    encrypted_vars ← encrypt_variables crypto variables (after_draw 12 rng);
    inr (mkVar var.1 encrypted nonce :: encrypted_vars)
  end.

(** What [push] sends for the text of a file: nothing when the file
    gives no variable, else the variables encrypted under a helper with
    a newly drawn salt. *)
Definition push (password : str) (content : str) (rng : Entropy)
    : raises (option (list Var)) :=
  let variables := parse_env content in
  if bool_decide (variables = []) then inr None
  else
    crypto ← CryptoHelper.init password None rng;
    encrypted_vars ← encrypt_variables crypto variables (after_draw 16 rng);
    inr (Some encrypted_vars).
End WithLib.

(** Text without a space character at either end. *)
Definition trimmed (s : str) : bool :=
  match s with
  | c :: _ => negb (isspace c)
  | [] => true
  end
  && match reverse s with
     | c :: _ => negb (isspace c)
     | [] => true
     end.

(** A key that a line [key=value] gives back: no [=], no newline, no
    space at either end, no [#] in front. *)
Definition plain_key (k : str) : bool :=
  trimmed k && negb (startswith HASH k)
  && bool_decide (EQUALS ∉ k) && bool_decide (LF ∉ k).

(** A value that a line [key=value] gives back: no newline, no space
    at either end, no pair of quotes around it. *)
Definition plain_value (v : str) : bool :=
  trimmed v && bool_decide (LF ∉ v)
  && negb (startswith DQUOTE v && endswith DQUOTE v)
  && negb (startswith SQUOTE v && endswith SQUOTE v).
End Main.

(** ** Scenarios of the specification, as concrete stores and requests *)

Module Scenario.
Definition configured : Settings := mkSettings (Some "vc-key").

Definition alice : string := "user-1".

Definition entity_state (local remote base : Z) (st : SyncStatus.t)
    : SyncState.t :=
  SyncState.mk alice "project" "proj-1" local remote base
    (Some "h0") (Some "h0") st (Some "projects/proj-1") None
    None None None None.

(** [base_version = 5, remote_version = 7]: a remote change the client
    has not seen. *)
Definition db_stale : Database :=
  mkDatabase {[ "state-1" := entity_state 5 7 5 SyncStatus.SYNCED ]} ∅.

(** [base_version = 5, remote_version = 5]. *)
Definition db_synced : Database :=
  mkDatabase {[ "state-1" := entity_state 5 5 5 SyncStatus.SYNCED ]} ∅.

(** No row yet for the entity. *)
Definition db_fresh : Database := mkDatabase ∅ ∅.


Definition env : PushEnv :=
  mkPushEnv "state-2" "conflict-2" 100 101 102.

Definition push (claimed : Z) : SyncPush.t :=
  SyncPush.mk "project" "proj-1" "blob" claimed "h1".

Definition body (r : ConflictResolution.t) (d : option string)
    : ConflictResolutionBody.t :=
  ConflictResolutionBody.mk "conflict-1" r d.


(** A conflicting push, its resolution, a pull and a push at a higher
    version. *)
Definition session : list Request :=
  [Push alice (push 5) env;
   Resolve "conflict-2"
     (ConflictResolutionBody.mk "conflict-2"
        ConflictResolution.REMOTE_WINS None) alice 200;
   Pull alice [PullEntity.mk "project" "proj-1" (Some 5%Z)];
   Push alice (push 8) env].

(** A batch that declares version 5, then version 7, for the entity
    stored at [remote_version = 7], and names an entity with no row. *)
Definition batch : list PullEntity.t :=
  [PullEntity.mk "project" "proj-1" (Some 5%Z);
   PullEntity.mk "project" "proj-1" (Some 7%Z);
   PullEntity.mk "project" "proj-9" None].
End Scenario.

(** ** A stand-in for the library primitives

    Used to run the helpers on concrete inputs: a key-stretching function
    that returns [dklen] bytes, and an authenticated cipher that takes
    keys of 16, 24 or 32 bytes, appends a 16-byte tag computed from key
    and nonce and checks it on decryption. *)
Module Standin.
Definition pad_to (n : nat) (bs : bytes) : bytes :=
  take n (bs ++ replicate n Byte.x00)%list.

Definition tag (key nonce : bytes) : bytes :=
  pad_to 16 (key ++ nonce)%list.

Definition same_bytes (a b : bytes) : bool :=
  bool_decide (Byte.to_N <$> a = Byte.to_N <$> b).

Definition encrypt (key nonce data : bytes) : raises bytes :=
  inr (data ++ tag key nonce)%list.

Definition decrypt (key nonce data : bytes) : raises bytes :=
  let n := (length data - 16)%nat in
  if same_bytes (drop n data) (tag key nonce)
  then inr (take n data) else inl InvalidTag.

Definition new (key : bytes) : raises bytes :=
  if bool_decide (length key ∈ [16; 24; 32]%nat) then inr key
  else inl ValueError.

Definition lib : CryptoLib :=
  {| pbkdf2_hmac := λ _ password salt _ dklen,
       pad_to dklen (password ++ salt)%list;
     cipher := bytes;
     AESGCM := new;
     AESGCM_encrypt := encrypt;
     AESGCM_decrypt := decrypt |}.

(** The stream 0, 1, 2, ... *)
Definition counter : Entropy := λ i, byte_of_N (N.of_nat i).

Definition password : str := [112; 228; 115; 115]%N.
Definition salt : bytes := token_bytes 16 counter.
(** "h", "é", "€", U+1F600 *)
Definition plaintext : str := [104; 233; 8364; 128512]%N.
(** A lone high surrogate, U+D800. *)
Definition lone_surrogate : str := [55296]%N.
End Standin.

(** Linear arithmetic with division and remainder by constants. *)
Ltac divlia := zify; Z.to_euclidean_division_equations; lia.

(** ** Further scenarios *)

Module Scenario2.
(** Two accepted pushes around a pull, on the store at 5/5/5. *)
Definition calm_session : list Request :=
  [Push Scenario.alice (Scenario.push 6) Scenario.env;
   Pull Scenario.alice [PullEntity.mk "project" "proj-1" (Some 5%Z)];
   Push Scenario.alice (Scenario.push 3) Scenario.env].

(** A second draw of UUIDs and clock readings. *)
Definition env2 : PushEnv :=
  mkPushEnv "state-3" "conflict-3" 110 111 112.

(** The store after the stale push of the first scenario was refused. *)
Definition db_refused : Database :=
  snd (push_changes Scenario.configured Scenario.alice (Scenario.push 5)
         Scenario.env Scenario.db_stale).
End Scenario2.

(** ** A store for the bulk route *)
Module Scenario3.
Definition settings : AppSettings := mkAppSettings Scenario.configured true.

Definition alice : User.t := User.mk Scenario.alice "alice@example.org".

(** Two projects of alice, the first pushed before at version 5 and
    edited since, the second never synced, and a project of bob. *)
Definition projects : gmap string Project.t :=
  {[ "proj-1" := Project.mk "api" Scenario.alice true (Some 50) 8;
     "proj-2" := Project.mk "web" Scenario.alice false None 2;
     "proj-3" := Project.mk "ops" "bob" false None 4 ]}.

Definition store : Store.t := Store.mk Scenario.db_synced projects ∅.

Definition env : SyncEnv.t :=
  SyncEnv.mk (λ i, "uuid-" ++ pretty.pretty i) (λ i, 1000 + Z.of_nat i).

Definition request : SyncRequest.t := SyncRequest.mk None false.

End Scenario3.

(** ** A file and the variables stored for it *)
Module Scenario4.
(** Two lines, [A=1] and [B = x y]. *)
Definition content : str :=
  (literal "A=1" ++ [Main.LF] ++ literal "B = x y")%list.


End Scenario4.
(** * Properties *)

Section SelectLemmas.
Context {A : Type}.

Lemma scalar_one_or_none_Some (rows : list A) (row : A) :
  scalar_one_or_none rows = inr (Some row) ↔ rows = [row].
Proof.
  destruct rows as [|r [|r' rows]]; simpl; split; intros H;
    try discriminate; congruence.
Qed.

Lemma scalar_one_or_none_None (rows : list A) :
  scalar_one_or_none rows = inr None ↔ rows = [].
Proof.
  destruct rows as [|r [|r' rows]]; simpl; split; intros H;
    try discriminate; congruence.
Qed.

Lemma map_to_list_one (m : gmap string A) (k : string) (x : A) :
  map_to_list m = [(k, x)] ↔ m = {[ k := x ]}.
Proof.
  split.
  - intros H. rewrite <- (list_to_map_to_list m), H. simpl.
    by rewrite insert_empty.
  - intros ->. apply map_to_list_singleton.
Qed.
End SelectLemmas.

(** A row returned by the lookup is a row of the table that satisfies the
    three [where] clauses. *)
Lemma select_sync_state_one u t e db id s :
  select_sync_state u t e db = [(id, s)] →
  sync_states db !! id = Some s ∧ where_entity u t e s = true.
Proof.
  unfold select_sync_state. rewrite map_to_list_one. intros H.
  assert (Hl : filter (λ kv : string * SyncState.t,
                         Is_true (where_entity u t e kv.2))
                 (sync_states db) !! id = Some s)
    by (rewrite H; apply lookup_singleton_eq).
  apply map_lookup_filter_Some in Hl as [Hl HP]. split; [done|].
  by apply Is_true_true.
Qed.

(** Writing a row that still satisfies the [where] clauses, under the key
    the lookup returned, leaves it the only match. *)
Lemma select_sync_state_update u t e db id s s' :
  select_sync_state u t e db = [(id, s)] →
  where_entity u t e s' = true →
  select_sync_state u t e
    (mkDatabase (<[id := s']> (sync_states db)) (sync_conflicts db))
  = [(id, s')].
Proof.
  unfold select_sync_state. rewrite !map_to_list_one. simpl. intros H Hw.
  rewrite map_filter_insert_True by (by apply Is_true_true).
  rewrite H. apply insert_singleton_eq.
Qed.

Lemma select_sync_state_insert u t e db id s' :
  select_sync_state u t e db = [] →
  where_entity u t e s' = true →
  select_sync_state u t e
    (mkDatabase (<[id := s']> (sync_states db)) (sync_conflicts db))
  = [(id, s')].
Proof.
  unfold select_sync_state. rewrite map_to_list_one, map_to_list_empty_iff.
  simpl. intros H Hw.
  rewrite map_filter_insert_True by (by apply Is_true_true).
  rewrite H. apply insert_empty.
Qed.

Lemma get_or_create_inr u data env db pending id s :
  get_or_create u data env db = inr (pending, id, s) →
  (pending = false
   ∧ select_sync_state u (SyncPush.entity_type data)
       (SyncPush.entity_id data) db = [(id, s)])
  ∨ (pending = true ∧ id = state_uuid env
     ∧ select_sync_state u (SyncPush.entity_type data)
         (SyncPush.entity_id data) db = []
     ∧ s = SyncState.new u (SyncPush.entity_type data)
             (SyncPush.entity_id data)
             (SyncPush.entity_type data ++ "s/" ++ SyncPush.entity_id data)).
Proof.
  unfold get_or_create.
  destruct (scalar_one_or_none _) as [e|[[k s0]|]] eqn:Hsel; intros H;
    simplify_eq.
  - left. by apply scalar_one_or_none_Some in Hsel.
  - right. by apply scalar_one_or_none_None in Hsel.
Qed.

(** The object that get-or-create hands to the conflict test satisfies
    the [where] clauses of its own lookup. *)
Lemma get_or_create_where u data env db pending id s :
  get_or_create u data env db = inr (pending, id, s) →
  where_entity u (SyncPush.entity_type data) (SyncPush.entity_id data) s
  = true.
Proof.
  intros [[_ H]|(_ & _ & _ & ->)]%get_or_create_inr.
  - by apply select_sync_state_one in H as [_ ?].
  - unfold where_entity. simpl. by rewrite !String.eqb_refl.
Qed.

Lemma conflict_detected_spec s data :
  conflict_detected s data = true
  ↔ (SyncState.remote_version s > SyncState.base_version s
     ∧ SyncPush.local_version data ≤ SyncState.base_version s)%Z.
Proof. unfold conflict_detected. rewrite andb_true_iff. lia. Qed.

Lemma flush_sync_state_ok pending id s db :
  (pending = true → sync_states db !! id = None) →
  flush_sync_state pending id s db
  = inr (mkDatabase (<[id := s]> (sync_states db)) (sync_conflicts db)).
Proof.
  unfold flush_sync_state. intros H. destruct pending; simpl; [|done].
  rewrite H by done. by rewrite bool_decide_eq_false_2 by (by intros [? ?]).
Qed.

Lemma flush_sync_state_inr pending id s db db' :
  flush_sync_state pending id s db = inr db' →
  db' = mkDatabase (<[id := s]> (sync_states db)) (sync_conflicts db)
  ∧ (pending = true → sync_states db !! id = None).
Proof.
  unfold flush_sync_state. destruct pending; simpl.
  - case_bool_decide as Hd; [done|]. intros [= <-]. split; [done|].
    intros _. by apply eq_None_not_Some.
  - intros [= <-]. by split.
Qed.

Lemma insert_sync_conflict_inr id c db db' :
  insert_sync_conflict id c db = inr db' ↔
  sync_conflicts db !! id = None
  ∧ db' = mkDatabase (sync_states db) (<[id := c]> (sync_conflicts db)).
Proof.
  unfold insert_sync_conflict. case_bool_decide as Hd; split.
  - done.
  - intros [Hn _]. rewrite Hn in Hd. by destruct Hd.
  - intros [= <-]. split; [|done]. by apply eq_None_not_Some.
  - by intros [_ ->].
Qed.



Example stale_push_rejected :
  push_changes Scenario.configured Scenario.alice (Scenario.push 5)
    Scenario.env Scenario.db_stale
  = (HTTPException HTTP_409_CONFLICT "Sync conflict detected",
     mkDatabase
       {[ "state-1" := Scenario.entity_state 5 7 5 SyncStatus.CONFLICT ]}
       {[ "conflict-2" := SyncConflict.new "state-1" "blob" "" 100 ]}).
Proof. vm_compute. reflexivity. Qed.


(** Inversion of an accepted push. *)
Lemma push_changes_Return settings u data env db resp db' :
  push_changes settings u data env db = (Return resp, db') →
  ∃ pending id s,
    get_or_create u data env db = inr (pending, id, s)
    ∧ conflict_detected s data = false
    ∧ (pending = true → sync_states db !! id = None)
    ∧ resp = mkPushResponse true (SyncPush.local_version data)
    ∧ db' = mkDatabase (<[id := accept_push data env s]> (sync_states db))
              (sync_conflicts db).
Proof.
  unfold push_changes.
  destruct (negb _); [done|].
  destruct (get_or_create _ _ _ _) as [e|[[pending id] s]]; [done|].
  destruct (conflict_detected s data) eqn:Hc.
  - destruct (flush_sync_state _ _ _ _) as [?|db1]; [done|].
    by destruct (insert_sync_conflict _ _ _).
  - destruct (flush_sync_state _ _ _ _) as [?|db1] eqn:Hf; [done|].
    intros [= <- <-]. apply flush_sync_state_inr in Hf as [-> Hp].
    by exists pending, id, s.
Qed.

(** Inversion of a push answered with HTTP 409. *)
Lemma push_changes_409 settings u data env db detail db' :
  push_changes settings u data env db
  = (HTTPException HTTP_409_CONFLICT detail, db') →
  ∃ pending id s,
    get_or_create u data env db = inr (pending, id, s)
    ∧ conflict_detected s data = true
    ∧ sync_conflicts db !! conflict_uuid env = None
    ∧ db' = mkDatabase
              (<[id := SyncState.set_status SyncStatus.CONFLICT s]>
                 (sync_states db))
              (<[conflict_uuid env :=
                   SyncConflict.new id (SyncPush.data data) "" (utcnow env)]>
                 (sync_conflicts db)).
Proof.
  unfold push_changes.
  destruct (negb _); [done|].
  destruct (get_or_create _ _ _ _) as [e|[[pending id] s]]; [done|].
  destruct (conflict_detected s data) eqn:Hc.
  - destruct (flush_sync_state _ _ _ _) as [?|db1] eqn:Hf; [done|].
    destruct (insert_sync_conflict _ _ _) as [?|db2] eqn:Hi; [done|].
    intros [= <- <-]. apply flush_sync_state_inr in Hf as [-> Hp].
    apply insert_sync_conflict_inr in Hi as [Hn ->].
    by exists pending, id, s.
  - by destruct (flush_sync_state _ _ _ _).
Qed.

Lemma where_entity_accept_push u t e data env s :
  where_entity u t e (accept_push data env s) = where_entity u t e s.
Proof. done. Qed.

(** C2. After an accepted push with claimed version [v] and checksum [c]
    the entity's SyncState (the one row the lookup now returns) has
    [local_version = remote_version = base_version = v], both hashes
    equal to [c], status SYNCED and [last_sync_at] set. *)
Theorem accepted_push_state settings u data env db resp db' :
  push_changes settings u data env db = (Return resp, db') →
  ∃ id s,
    select_sync_state u (SyncPush.entity_type data)
      (SyncPush.entity_id data) db' = [(id, s)]
    ∧ SyncState.local_version s = SyncPush.local_version data
    ∧ SyncState.remote_version s = SyncPush.local_version data
    ∧ SyncState.base_version s = SyncPush.local_version data
    ∧ SyncState.local_hash s = Some (SyncPush.checksum data)
    ∧ SyncState.remote_hash s = Some (SyncPush.checksum data)
    ∧ SyncState.status s = SyncStatus.SYNCED
    ∧ SyncState.last_sync_at s = Some (now_sync env)
    ∧ resp = mkPushResponse true (SyncPush.local_version data).
Proof.
  intros (pending & id & s & Hgoc & _ & _ & -> & ->)%push_changes_Return.
  exists id, (accept_push data env s).
  split; [|by repeat split].
  pose proof (get_or_create_where _ _ _ _ _ _ _ Hgoc) as Hw.
  apply get_or_create_inr in Hgoc as [[_ Hsel]|(_ & _ & Hsel & _)].
  - by eapply select_sync_state_update.
  - by apply select_sync_state_insert.
Qed.

(** The scenario "base 5, remote 5, claimed 6". *)
Lemma accepted_push_state_witness :
  ∃ id s,
    select_sync_state Scenario.alice "project" "proj-1"
      (mkDatabase
         {[ "state-1" :=
              accept_push (Scenario.push 6) Scenario.env
                (Scenario.entity_state 5 5 5 SyncStatus.SYNCED) ]} ∅)
    = [(id, s)]
    ∧ SyncState.local_version s = 6%Z
    ∧ SyncState.remote_version s = 6%Z
    ∧ SyncState.base_version s = 6%Z
    ∧ SyncState.local_hash s = Some "h1"
    ∧ SyncState.remote_hash s = Some "h1"
    ∧ SyncState.status s = SyncStatus.SYNCED
    ∧ SyncState.last_sync_at s = Some 101%Z
    ∧ mkPushResponse true 6 = mkPushResponse true 6.
Proof.
  apply (accepted_push_state Scenario.configured Scenario.alice
           (Scenario.push 6) Scenario.env Scenario.db_synced).
  vm_compute. reflexivity.
Defined.

(** A fresh entity pushed at version 1 ends SYNCED at 1 on all three
    counters. *)
Example fresh_entity_first_push :
  push_changes Scenario.configured Scenario.alice (Scenario.push 1)
    Scenario.env Scenario.db_fresh
  = (Return (mkPushResponse true 1),
     mkDatabase
       {[ "state-2" :=
            SyncState.mk Scenario.alice "project" "proj-1" 1 1 1
              (Some "h1") (Some "h1") SyncStatus.SYNCED
              (Some "projects/proj-1") None (Some 102%Z) None (Some 101%Z)
              None ]} ∅).
Proof. vm_compute. reflexivity. Qed.

(** C8. A push rejected as a conflict writes the entity's SyncState back
    with only [status] changed, to CONFLICT: the three version counters
    and both hashes are those stored before. *)
Theorem conflict_push_frame settings u data env db detail db' :
  push_changes settings u data env db
  = (HTTPException HTTP_409_CONFLICT detail, db') →
  ∃ id s s',
    select_sync_state u (SyncPush.entity_type data)
      (SyncPush.entity_id data) db = [(id, s)]
    ∧ sync_states db' = <[id := s']> (sync_states db)
    ∧ s' = SyncState.set_status SyncStatus.CONFLICT s
    ∧ SyncState.status s' = SyncStatus.CONFLICT
    ∧ SyncState.local_version s' = SyncState.local_version s
    ∧ SyncState.remote_version s' = SyncState.remote_version s
    ∧ SyncState.base_version s' = SyncState.base_version s
    ∧ SyncState.local_hash s' = SyncState.local_hash s
    ∧ SyncState.remote_hash s' = SyncState.remote_hash s.
Proof.
  intros (pending & id & s & Hgoc & Hc & _ & ->)%push_changes_409.
  apply get_or_create_inr in Hgoc as [[_ Hsel]|(_ & _ & _ & ->)].
  - exists id, s, (SyncState.set_status SyncStatus.CONFLICT s).
    by repeat split.
  - discriminate Hc.
Qed.

(** The scenario "base 5, remote 7, claimed 5": only [status] moves. *)
Lemma conflict_push_frame_witness :
  ∃ id s s',
    select_sync_state Scenario.alice
      (SyncPush.entity_type (Scenario.push 5))
      (SyncPush.entity_id (Scenario.push 5)) Scenario.db_stale
    = [(id, s)]
    ∧ sync_states
        (snd (push_changes Scenario.configured Scenario.alice
                (Scenario.push 5) Scenario.env Scenario.db_stale))
      = <[id := s']> (sync_states Scenario.db_stale)
    ∧ s' = SyncState.set_status SyncStatus.CONFLICT s
    ∧ SyncState.status s' = SyncStatus.CONFLICT
    ∧ SyncState.local_version s' = SyncState.local_version s
    ∧ SyncState.remote_version s' = SyncState.remote_version s
    ∧ SyncState.base_version s' = SyncState.base_version s
    ∧ SyncState.local_hash s' = SyncState.local_hash s
    ∧ SyncState.remote_hash s' = SyncState.remote_hash s.
Proof.
  apply (conflict_push_frame Scenario.configured Scenario.alice
           (Scenario.push 5) Scenario.env Scenario.db_stale
           "Sync conflict detected").
  vm_compute. reflexivity.
Defined.

(** *** The conflict lookup of [resolve_conflict] *)

Lemma select_conflict_lookup cid u db :
  select_conflict cid u db
  = match sync_conflicts db !! cid with
    | Some c => if joined_owner u db c then [(cid, c)] else []
    | None => []
    end.
Proof.
  unfold select_conflict.
  set (P := λ kv : string * SyncConflict.t,
              Is_true (String.eqb kv.1 cid && joined_owner u db kv.2)).
  assert (HP : ∀ k c, P (k, c) ↔ k = cid ∧ joined_owner u db c = true).
  { intros k c. unfold P. simpl.
    rewrite Is_true_true, andb_true_iff, String.eqb_eq. done. }
  destruct (sync_conflicts db !! cid) as [c|] eqn:Hc;
    [destruct (joined_owner u db c) eqn:Ho|].
  - apply map_to_list_one. apply map_eq. intros k.
    apply option_eq. intros x.
    rewrite map_lookup_filter_Some, HP, lookup_singleton_Some.
    split; [intros (? & -> & ?); split; congruence|].
    intros [<- <-]. done.
  - apply map_to_list_empty_iff. apply map_eq. intros k.
    apply option_eq. intros x.
    rewrite map_lookup_filter_Some, HP, lookup_empty.
    split; [intros (? & -> & ?); congruence|done].
  - apply map_to_list_empty_iff. apply map_eq. intros k.
    apply option_eq. intros x.
    rewrite map_lookup_filter_Some, HP, lookup_empty.
    split; [intros (? & -> & ?); congruence|done].
Qed.


Lemma resolve_conflict_Return cid data u now db b db' :
  resolve_conflict cid data u now db = (Return b, db') →
  ∃ c s,
    sync_conflicts db !! cid = Some c
    ∧ sync_states db !! SyncConflict.sync_state_id c = Some s
    ∧ SyncState.user_id s = u
    ∧ b = true ∧ db' = resolved_db cid data u now c s db.
Proof.
  unfold resolve_conflict. rewrite select_conflict_lookup.
  destruct (sync_conflicts db !! cid) as [c|] eqn:Hc; [|done].
  unfold joined_owner.
  destruct (sync_states db !! SyncConflict.sync_state_id c) as [s|] eqn:Hs;
    [|done].
  destruct (String.eqb (SyncState.user_id s) u) eqn:Hu; [|done].
  simpl. rewrite Hs. simpl. intros [= <- <-].
  apply String.eqb_eq in Hu. by exists c, s.
Qed.

(** Every other outcome of [resolve_conflict] leaves the store as it
    was. *)
Lemma resolve_conflict_states cid data u now db :
  snd (resolve_conflict cid data u now db) = db
  ∨ ∃ c s,
      sync_conflicts db !! cid = Some c
      ∧ sync_states db !! SyncConflict.sync_state_id c = Some s
      ∧ snd (resolve_conflict cid data u now db)
        = resolved_db cid data u now c s db.
Proof.
  destruct (resolve_conflict cid data u now db) as [[b| |] db'] eqn:H;
    [right|left..].
  - apply resolve_conflict_Return in H as (c & s & ? & ? & _ & _ & ->).
    by exists c, s.
  - revert H. unfold resolve_conflict.
    destruct (scalar_one_or_none _) as [?|[[? ?]|]]; [by intros [= <-]| |
      by intros [= <-]].
    destruct (sync_states db !! _); by intros [= <-].
  - revert H. unfold resolve_conflict.
    destruct (scalar_one_or_none _) as [?|[[? ?]|]]; [by intros [= <-]| |
      by intros [= <-]].
    destruct (sync_states db !! _); by intros [= <-].
Qed.









(** *** [remote_version] along a sequence of requests *)

(** An accepted push at claimed version 3 takes [remote_version] from 5
    down to 3. *)
Lemma accepted_push_lowers_remote_version :
  let db' := run Scenario.configured Scenario.db_synced
               [Push Scenario.alice (Scenario.push 3) Scenario.env] in
  SyncState.remote_version <$> (sync_states Scenario.db_synced !! "state-1")
  = Some 5%Z
  ∧ fst (push_changes Scenario.configured Scenario.alice (Scenario.push 3)
           Scenario.env Scenario.db_synced)
    = Return (mkPushResponse true 3)
  ∧ SyncState.remote_version <$> (sync_states db' !! "state-1") = Some 3%Z.
Proof. repeat split; vm_compute; reflexivity. Qed.

Lemma remote_le_refl db : remote_le db db.
Proof. intros id s Hs. exists s. split; [done|lia]. Qed.

Lemma remote_le_trans db1 db2 db3 :
  remote_le db1 db2 → remote_le db2 db3 → remote_le db1 db3.
Proof.
  intros H12 H23 id s Hs.
  destruct (H12 _ _ Hs) as (s2 & Hs2 & Hle2).
  destruct (H23 _ _ Hs2) as (s3 & Hs3 & Hle3).
  exists s3. split; [done|lia].
Qed.

(** Overwriting the row at [id0] with one whose [remote_version] is not
    smaller, or inserting at a free key. *)
Lemma remote_le_insert db id0 s0' conflicts :
  (∀ s0, sync_states db !! id0 = Some s0 →
         (SyncState.remote_version s0 ≤ SyncState.remote_version s0')%Z) →
  remote_le db (mkDatabase (<[id0 := s0']> (sync_states db)) conflicts).
Proof.
  intros H id s Hs. simpl. destruct (decide (id0 = id)) as [->|Hne].
  - exists s0'. rewrite lookup_insert_eq. split; [done|]. by apply H.
  - exists s. rewrite lookup_insert_ne by done. split; [done|lia].
Qed.

(** What a push leaves in the store, over all of its outcomes. *)
Lemma push_changes_store settings u data env db :
  snd (push_changes settings u data env db) = db
  ∨ ∃ pending id s,
      get_or_create u data env db = inr (pending, id, s)
      ∧ (pending = true → sync_states db !! id = None)
      ∧ ((conflict_detected s data = true
          ∧ snd (push_changes settings u data env db)
            = mkDatabase
                (<[id := SyncState.set_status SyncStatus.CONFLICT s]>
                   (sync_states db))
                (<[conflict_uuid env :=
                     SyncConflict.new id (SyncPush.data data) ""
                       (utcnow env)]> (sync_conflicts db)))
         ∨ (conflict_detected s data = false
            ∧ snd (push_changes settings u data env db)
              = mkDatabase (<[id := accept_push data env s]> (sync_states db))
                  (sync_conflicts db))).
Proof.
  unfold push_changes.
  destruct (negb _); [by left|].
  destruct (get_or_create _ _ _ _) as [e|[[pending id] s]] eqn:Hgoc;
    [by left|].
  destruct (conflict_detected s data) eqn:Hc.
  - destruct (flush_sync_state _ _ _ _) as [?|db1] eqn:Hf; [by left|].
    destruct (insert_sync_conflict _ _ _) as [?|db2] eqn:Hi; [by left|].
    apply flush_sync_state_inr in Hf as [-> Hp].
    apply insert_sync_conflict_inr in Hi as [_ ->].
    right. exists pending, id, s. split; [done|]. split; [done|]. by left.
  - destruct (flush_sync_state _ _ _ _) as [?|db1] eqn:Hf; [by left|].
    apply flush_sync_state_inr in Hf as [-> Hp].
    right. exists pending, id, s. split; [done|]. split; [done|]. by right.
Qed.

Lemma push_changes_remote_le settings u data env db :
  regressing_push u data db = false →
  remote_le db (snd (push_changes settings u data env db)).
Proof.
  intros Hreg.
  destruct (push_changes_store settings u data env db)
    as [->|(pending & id & s & Hgoc & Hp & [[Hc ->]|[Hc ->]])].
  - apply remote_le_refl.
  - apply remote_le_insert. intros s0 Hs0.
    apply get_or_create_inr in Hgoc as [[_ Hsel]|(-> & _)].
    + apply select_sync_state_one in Hsel as [Hs _].
      rewrite Hs in Hs0. injection Hs0 as <-. simpl. lia.
    + rewrite Hp in Hs0; done.
  - apply remote_le_insert. intros s0 Hs0.
    apply get_or_create_inr in Hgoc as [[_ Hsel]|(-> & _)].
    + unfold regressing_push in Hreg. rewrite Hsel in Hreg. simpl in Hreg.
      rewrite Hc in Hreg. simpl in Hreg.
      apply select_sync_state_one in Hsel as [Hs _].
      rewrite Hs in Hs0. injection Hs0 as <-.
      rewrite orb_false_r in Hreg. apply Z.ltb_ge in Hreg. simpl. lia.
    + rewrite Hp in Hs0; done.
Qed.

Lemma resolve_conflict_remote_le cid data u now db :
  remote_le db (snd (resolve_conflict cid data u now db)).
Proof.
  destruct (resolve_conflict_states cid data u now db)
    as [->|(c & s & _ & Hs & ->)].
  - apply remote_le_refl.
  - unfold resolved_db. apply remote_le_insert. intros s0 Hs0.
    rewrite Hs in Hs0. injection Hs0 as <-. simpl. lia.
Qed.

(** C5 (as amended). Along every sequence of push, pull and resolve
    requests in which no accepted push claims a version below the stored
    [remote_version], every SyncState row stays in the table and its
    [remote_version] never decreases. *)
Theorem remote_version_monotone settings db rs :
  no_regressing_push settings db rs = true →
  ∀ id s, sync_states db !! id = Some s →
    ∃ s', sync_states (run settings db rs) !! id = Some s'
          ∧ (SyncState.remote_version s ≤ SyncState.remote_version s')%Z.
Proof.
  revert db. induction rs as [|r rs IH]; intros db Hok.
  - apply remote_le_refl.
  - simpl in Hok. apply andb_true_iff in Hok as [Hr Hrs].
    change (remote_le db (run settings (step settings db r) rs)).
    apply (remote_le_trans db (step settings db r)); [|exact (IH _ Hrs)].
    destruct r as [u data env|u entities|cid data u now]; simpl.
    + apply push_changes_remote_le. by apply negb_true_iff.
    + apply remote_le_refl.
    + apply resolve_conflict_remote_le.
Qed.

(** A conflicting push, its resolution, a pull and a push at a higher
    version: [remote_version] goes 7, 7, 7, 8. *)
Lemma remote_version_monotone_witness :
  ∃ s', sync_states
          (run Scenario.configured Scenario.db_stale Scenario.session)
        !! "state-1" = Some s'
        ∧ (SyncState.remote_version
             (Scenario.entity_state 5 7 5 SyncStatus.SYNCED)
           ≤ SyncState.remote_version s')%Z.
Proof.
  apply (remote_version_monotone Scenario.configured Scenario.db_stale
           Scenario.session eq_refl "state-1"
           (Scenario.entity_state 5 7 5 SyncStatus.SYNCED)).
  vm_compute. reflexivity.
Defined.

Example session_remote_version :
  SyncState.remote_version
    <$> (sync_states
           (run Scenario.configured Scenario.db_stale Scenario.session)
         !! "state-1") = Some 8%Z.
Proof. vm_compute. reflexivity. Qed.

(** *** One row per entity *)

Lemma where_entity_spec u t e s :
  where_entity u t e s = true
  ↔ SyncState.user_id s = u ∧ SyncState.entity_type s = t
    ∧ SyncState.entity_id s = e.
Proof.
  unfold where_entity. rewrite !andb_true_iff, !String.eqb_eq. tauto.
Qed.

Lemma select_sync_state_elem u t e db id s :
  (id, s) ∈ select_sync_state u t e db
  ↔ sync_states db !! id = Some s ∧ where_entity u t e s = true.
Proof.
  unfold select_sync_state.
  rewrite elem_of_map_to_list, map_lookup_filter_Some. simpl.
  by rewrite Is_true_true.
Qed.

(** On a store with one row per entity the lookup never meets several
    rows. *)
Lemma select_sync_state_unique u t e db :
  one_row_per_entity db →
  (length (select_sync_state u t e db) ≤ 1)%nat.
Proof.
  intros Hone.
  pose proof (NoDup_fst_map_to_list
                (filter (λ kv : string * SyncState.t,
                           Is_true (where_entity u t e kv.2))
                   (sync_states db))) as Hnd.
  fold (select_sync_state u t e db) in Hnd.
  destruct (select_sync_state u t e db) as [|[id1 s1] [|[id2 s2] l]] eqn:Hsel;
    simpl; [lia..|exfalso].
  assert (H1 : (id1, s1) ∈ select_sync_state u t e db)
    by (rewrite Hsel; set_solver).
  assert (H2 : (id2, s2) ∈ select_sync_state u t e db)
    by (rewrite Hsel; set_solver).
  apply select_sync_state_elem in H1 as [H1 (? & ? & ?)%where_entity_spec].
  apply select_sync_state_elem in H2 as [H2 (? & ? & ?)%where_entity_spec].
  assert (id1 = id2) as -> by (apply (Hone _ _ _ _ H1 H2); split_and!; congruence).
  simpl in Hnd. apply NoDup_cons in Hnd as [Hnd _]. set_solver.
Qed.

Lemma one_row_per_entity_insert db id s' conflicts :
  one_row_per_entity db →
  (∀ id2 s2, sync_states db !! id2 = Some s2 → same_entity s' s2 → id2 = id) →
  one_row_per_entity (mkDatabase (<[id := s']> (sync_states db)) conflicts).
Proof.
  intros Hone Hnew id1 id2 s1 s2. simpl.
  destruct (decide (id = id1)) as [<-|Hne1];
    destruct (decide (id = id2)) as [<-|Hne2]; [done|..].
  - rewrite lookup_insert_eq, lookup_insert_ne by done.
    intros [= <-] H2 Hs. symmetry. by apply (Hnew id2 s2).
  - rewrite lookup_insert_eq, lookup_insert_ne by done.
    intros H1 [= <-] (? & ? & ?). apply (Hnew id1 s1); [done|].
    split_and!; congruence.
  - rewrite !lookup_insert_ne by done. apply Hone.
Qed.

(** A row written back under its own key, with the entity columns
    untouched. *)
Lemma one_row_per_entity_update db id s s' conflicts :
  one_row_per_entity db →
  sync_states db !! id = Some s → same_entity s' s →
  one_row_per_entity (mkDatabase (<[id := s']> (sync_states db)) conflicts).
Proof.
  intros Hone Hs (? & ? & ?). apply one_row_per_entity_insert; [done|].
  intros id2 s2 H2 (? & ? & ?). apply (Hone _ _ _ _ H2 Hs).
  split_and!; congruence.
Qed.

Lemma push_changes_one_row settings u data env db :
  one_row_per_entity db →
  one_row_per_entity (snd (push_changes settings u data env db)).
Proof.
  intros Hone.
  destruct (push_changes_store settings u data env db)
    as [->|(pending & id & s & Hgoc & Hp & Hdb)]; [done|].
  assert (Hkey : ∀ s', same_entity s' s →
            ∀ conflicts,
              one_row_per_entity
                (mkDatabase (<[id := s']> (sync_states db)) conflicts)).
  { intros s' Hsame conflicts.
    apply get_or_create_inr in Hgoc as [[_ Hsel]|(_ & _ & Hsel & ->)].
    - apply select_sync_state_one in Hsel as [Hs _].
      by eapply one_row_per_entity_update.
    - apply one_row_per_entity_insert; [done|].
      intros id2 s2 H2 (Hu & Ht & He). exfalso.
      assert (Hin : (id2, s2) ∈ select_sync_state u
                      (SyncPush.entity_type data) (SyncPush.entity_id data) db).
      { apply select_sync_state_elem. split; [done|].
        apply where_entity_spec. destruct Hsame as (Hu' & Ht' & He').
        simpl in *. split_and!; congruence. }
      rewrite Hsel in Hin. set_solver. }
  destruct Hdb as [[_ ->]|[_ ->]]; by apply Hkey.
Qed.

Lemma resolve_conflict_one_row cid data u now db :
  one_row_per_entity db →
  one_row_per_entity (snd (resolve_conflict cid data u now db)).
Proof.
  intros Hone.
  destruct (resolve_conflict_states cid data u now db)
    as [->|(c & s & _ & Hs & ->)]; [done|].
  unfold resolved_db. by eapply one_row_per_entity_update.
Qed.

(** The invariant holds on every store reached from one that has it, in
    particular from the empty store; there get-or-create and the pull
    loop never meet [MultipleResultsFound]. *)
Lemma run_one_row settings db rs :
  one_row_per_entity db → one_row_per_entity (run settings db rs).
Proof.
  revert db. induction rs as [|r rs IH]; intros db Hone; [done|].
  apply (IH (step settings db r)).
  destruct r as [u data env|u entities|cid data u now]; simpl.
  - by apply push_changes_one_row.
  - done.
  - by apply resolve_conflict_one_row.
Qed.

Lemma empty_one_row : one_row_per_entity (mkDatabase ∅ ∅).
Proof. intros id1 id2 s1 s2 H. simpl in H. by rewrite lookup_empty in H. Qed.

Lemma get_or_create_returns u data env db :
  one_row_per_entity db →
  ∃ pending id s, get_or_create u data env db = inr (pending, id, s).
Proof.
  intros Hone. unfold get_or_create.
  pose proof (select_sync_state_unique u (SyncPush.entity_type data)
                (SyncPush.entity_id data) db Hone) as Hlen.
  destruct (select_sync_state _ _ _ _) as [|[id s] [|? ?]]; simpl in *;
    [by eexists _, _, _..|lia].
Qed.

(** *** The pull response *)

Lemma stale_update_Some u db entity upd :
  stale_update u db entity = Some upd ↔
  ∃ id s,
    select_sync_state u (PullEntity.type entity) (PullEntity.id entity) db
    = [(id, s)]
    ∧ (SyncState.remote_version s > PullEntity.get_version entity)%Z
    ∧ upd = mkPullUpdate (PullEntity.type entity) (PullEntity.id entity)
              (SyncState.remote_version s) "".
Proof.
  unfold stale_update. split.
  - destruct (select_sync_state _ _ _ _) as [|[id s] [|? ?]]; try done.
    case_bool_decide; [|done]. intros [= <-]. by exists id, s.
  - intros (id & s & -> & Hgt & ->). by rewrite bool_decide_eq_true_2.
Qed.

(** The loop appends, in request order, the update of each stale
    entity. *)
Lemma pull_loop_Return u db entities acc updates :
  pull_loop u db entities acc = Return updates →
  updates = (acc ++ omap (stale_update u db) entities)%list.
Proof.
  revert acc. induction entities as [|entity entities IH]; intros acc; simpl.
  - intros [= <-]. by rewrite app_nil_r.
  - unfold stale_update at 1.
    destruct (select_sync_state _ _ _ _) as [|[id s] [|? ?]]; simpl;
      [apply IH| |done].
    destruct (Z.gtb_spec (SyncState.remote_version s)
                (PullEntity.get_version entity)) as [Hgt|Hle].
    + rewrite bool_decide_eq_true_2 by lia. intros ->%IH.
      by rewrite <- app_assoc.
    + rewrite bool_decide_eq_false_2 by lia. apply IH.
Qed.

(** With sync configured and at most one row per requested entity the
    handler returns a response. *)
Lemma pull_loop_returns u db entities acc :
  Forall (λ entity,
            (length (select_sync_state u (PullEntity.type entity)
                       (PullEntity.id entity) db) ≤ 1)%nat) entities →
  ∃ updates, pull_loop u db entities acc = Return updates.
Proof.
  intros H. revert acc. induction H as [|entity entities Hlen _ IH];
    intros acc; simpl; [by eexists|].
  destruct (select_sync_state _ _ _ _) as [|[id s] [|? ?]]; simpl in *;
    [apply IH..|lia].
Qed.

Lemma pull_changes_returns settings u entities db :
  truthy (VEILCLOUD_API_KEY settings) = true →
  Forall (λ entity,
            (length (select_sync_state u (PullEntity.type entity)
                       (PullEntity.id entity) db) ≤ 1)%nat) entities →
  ∃ updates, pull_changes settings u entities db = Return updates.
Proof.
  intros Hcfg H. unfold pull_changes. rewrite Hcfg. simpl.
  by apply pull_loop_returns.
Qed.

Lemma pull_changes_returns_one_row settings u entities db :
  truthy (VEILCLOUD_API_KEY settings) = true →
  one_row_per_entity db →
  ∃ updates, pull_changes settings u entities db = Return updates.
Proof.
  intros Hcfg Hone. apply pull_changes_returns; [done|].
  apply Forall_forall. intros entity _. by apply select_sync_state_unique.
Qed.

(** C6. A batch pull is answered (with sync configured, on a store with
    one row per entity), and the response holds, in request order,
    exactly one update for each requested entity whose stored
    [remote_version] is strictly greater than the version the caller
    declared; an entity whose requests all declare its stored
    [remote_version] has no update in the response. *)
Theorem pull_changes_updates settings u entities db :
  (truthy (VEILCLOUD_API_KEY settings) = true → one_row_per_entity db →
   ∃ updates, pull_changes settings u entities db = Return updates)
  ∧ ∀ updates,
      pull_changes settings u entities db = Return updates →
      updates = omap (stale_update u db) entities
      ∧ (∀ upd, upd ∈ updates ↔
           ∃ entity id s,
             entity ∈ entities
             ∧ select_sync_state u (PullEntity.type entity)
                 (PullEntity.id entity) db = [(id, s)]
             ∧ (SyncState.remote_version s > PullEntity.get_version entity)%Z
             ∧ upd = mkPullUpdate (PullEntity.type entity)
                       (PullEntity.id entity)
                       (SyncState.remote_version s) "")
      ∧ (∀ t i,
           (∀ entity, entity ∈ entities →
              PullEntity.type entity = t → PullEntity.id entity = i →
              ∃ id s, select_sync_state u t i db = [(id, s)]
                      ∧ SyncState.remote_version s
                        = PullEntity.get_version entity) →
           ∀ upd, upd ∈ updates →
             ¬ (update_type upd = t ∧ update_id upd = i)).
Proof.
  split; [apply pull_changes_returns_one_row|].
  intros updates. unfold pull_changes. destruct (negb _); [done|].
  intros ->%pull_loop_Return. simpl.
  assert (Hiff : ∀ upd, upd ∈ omap (stale_update u db) entities ↔
       ∃ entity id s,
         entity ∈ entities
         ∧ select_sync_state u (PullEntity.type entity)
             (PullEntity.id entity) db = [(id, s)]
         ∧ (SyncState.remote_version s > PullEntity.get_version entity)%Z
         ∧ upd = mkPullUpdate (PullEntity.type entity) (PullEntity.id entity)
                   (SyncState.remote_version s) "").
  { intros upd. rewrite list_elem_of_omap. split.
    - intros (entity & Hin & (id & s & ? & ? & ?)%stale_update_Some).
      by exists entity, id, s.
    - intros (entity & id & s & Hin & ? & ? & ?). exists entity.
      split; [done|]. apply stale_update_Some. by exists id, s. }
  split; [done|]. split; [done|].
  intros t i Hpar upd (entity & id & s & Hin & Hsel & Hgt & ->)%Hiff.
  simpl. intros [Ht Hi].
  destruct (Hpar entity Hin Ht Hi) as (id' & s' & Hsel' & Heq).
  rewrite Ht, Hi, Hsel' in Hsel. injection Hsel as <- <-. lia.
Qed.

(** On the store with [remote_version = 7]: the request declaring 5 gets
    the update, the one declaring 7 and the unknown entity get none. *)
Lemma pull_changes_updates_witness :
  pull_changes Scenario.configured Scenario.alice Scenario.batch
    Scenario.db_stale
  = Return [mkPullUpdate "project" "proj-1" 7 ""]
  ∧ [mkPullUpdate "project" "proj-1" 7 ""]
    = omap (stale_update Scenario.alice Scenario.db_stale) Scenario.batch
  ∧ (∀ upd, upd ∈ [mkPullUpdate "project" "proj-1" 7 ""] ↔
       ∃ entity id s,
         entity ∈ Scenario.batch
         ∧ select_sync_state Scenario.alice (PullEntity.type entity)
             (PullEntity.id entity) Scenario.db_stale = [(id, s)]
         ∧ (SyncState.remote_version s > PullEntity.get_version entity)%Z
         ∧ upd = mkPullUpdate (PullEntity.type entity) (PullEntity.id entity)
                   (SyncState.remote_version s) "")
  ∧ (∀ t i,
       (∀ entity, entity ∈ Scenario.batch →
          PullEntity.type entity = t → PullEntity.id entity = i →
          ∃ id s, select_sync_state Scenario.alice t i Scenario.db_stale
                  = [(id, s)]
                  ∧ SyncState.remote_version s
                    = PullEntity.get_version entity) →
       ∀ upd, upd ∈ [mkPullUpdate "project" "proj-1" 7 ""] →
         ¬ (update_type upd = t ∧ update_id upd = i)).
Proof.
  assert (Hret : pull_changes Scenario.configured Scenario.alice
                   Scenario.batch Scenario.db_stale
                 = Return [mkPullUpdate "project" "proj-1" 7 ""])
    by (vm_compute; reflexivity).
  split; [exact Hret|].
  exact (proj2 (pull_changes_updates Scenario.configured Scenario.alice
                  Scenario.batch Scenario.db_stale) _ Hret).
Defined.

(** An entity at parity: declared 7, stored 7, empty response. *)
Example pull_at_parity :
  pull_changes Scenario.configured Scenario.alice
    [PullEntity.mk "project" "proj-1" (Some 7%Z)] Scenario.db_stale
  = Return [].
Proof. vm_compute. reflexivity. Qed.


(** ** Bytes and code points *)

Local Open Scope list_scope.

Lemma to_N_byte_of_N n : (n < 256)%N → Byte.to_N (byte_of_N n) = n.
Proof.
  intros Hn. unfold byte_of_N. destruct (Byte.of_N n) as [b|] eqn:E; simpl.
  - by apply Byte.to_of_N.
  - apply Byte.of_N_None_iff in E. lia.
Qed.

Lemma byte_of_N_to_N b : byte_of_N (Byte.to_N b) = b.
Proof. unfold byte_of_N. by rewrite Byte.of_to_N. Qed.

Lemma to_N_lt b : (Byte.to_N b < 256)%N.
Proof. pose proof (Byte.to_N_bounded b). lia. Qed.

Lemma byte_of_N_eq n b : n = Byte.to_N b → byte_of_N n = b.
Proof. intros ->. apply byte_of_N_to_N. Qed.

Lemma map_ok_inr {A B} (f : A → B) (r : raises A) a :
  r = inr a → map_ok f r = inr (f a).
Proof. by intros ->. Qed.

(** ** UTF-8 *)

Section Utf8.
Local Open Scope N_scope.

Lemma is_scalar_value_spec c :
  is_scalar_value c = true ↔ c < 1114112 ∧ ¬ (55296 ≤ c ≤ 57343).
Proof.
  unfold is_scalar_value, is_surrogate.
  rewrite andb_true_iff, negb_true_iff, andb_false_iff.
  rewrite N.ltb_lt, !N.leb_gt. lia.
Qed.

(** Decoding what the encoder wrote for one scalar value gives the
    value back and continues with the rest of the input. *)
Lemma utf8_decode_encode_char c :
  is_scalar_value c = true →
  ∃ b, utf8_encode_char c = inr b
       ∧ ∀ rest, utf8_decode (b ++ rest) = map_ok (cons c) (utf8_decode rest).
Proof.
  intros [Hmax Hsur]%is_scalar_value_spec. unfold utf8_encode_char.
  destruct (N.ltb_spec c 128) as [H1|H1].
  { eexists. split; [done|]. intros rest. simpl.
    rewrite to_N_byte_of_N by lia.
    by rewrite (proj2 (N.ltb_lt _ _) H1). }
  destruct (N.ltb_spec c 2048) as [H2|H2].
  { eexists. split; [done|]. intros rest. simpl.
    unfold is_continuation.
    rewrite !to_N_byte_of_N by divlia.
    rewrite (proj2 (N.ltb_ge (192 + c / 64) 128)) by divlia.
    rewrite (proj2 (N.ltb_ge (192 + c / 64) 194)) by divlia.
    rewrite (proj2 (N.ltb_lt (192 + c / 64) 224)) by divlia.
    rewrite (proj2 (N.leb_le 128 (128 + c mod 64))) by divlia.
    rewrite (proj2 (N.ltb_lt (128 + c mod 64) 192)) by divlia.
    simpl. do 2 f_equal. divlia. }
  destruct (N.ltb_spec c 65536) as [H3|H3].
  { unfold is_surrogate at 1.
    assert (Hs : (55296 <=? c) && (c <=? 57343) = false).
    { apply andb_false_iff. rewrite !N.leb_gt. lia. }
    rewrite Hs. eexists. split; [done|]. intros rest. simpl.
    unfold is_continuation.
    rewrite !to_N_byte_of_N by divlia.
    rewrite (proj2 (N.ltb_ge (224 + c / 4096) 128)) by divlia.
    rewrite (proj2 (N.ltb_ge (224 + c / 4096) 194)) by divlia.
    rewrite (proj2 (N.ltb_ge (224 + c / 4096) 224)) by divlia.
    rewrite (proj2 (N.ltb_lt (224 + c / 4096) 240)) by divlia.
    rewrite (proj2 (N.leb_le 128 (128 + (c / 64) mod 64))) by divlia.
    rewrite (proj2 (N.ltb_lt (128 + (c / 64) mod 64) 192)) by divlia.
    rewrite (proj2 (N.leb_le 128 (128 + c mod 64))) by divlia.
    rewrite (proj2 (N.ltb_lt (128 + c mod 64) 192)) by divlia.
    replace ((224 + c / 4096 - 224) * 4096
             + (128 + (c / 64) mod 64 - 128) * 64
             + (128 + c mod 64 - 128)) with c by divlia.
    rewrite (proj2 (N.ltb_ge c 2048)) by lia.
    unfold is_surrogate. rewrite Hs. done. }
  rewrite (proj2 (N.ltb_lt c 1114112)) by lia.
  eexists. split; [done|]. intros rest. simpl.
  unfold is_continuation.
  rewrite !to_N_byte_of_N by divlia.
  rewrite (proj2 (N.ltb_ge (240 + c / 262144) 128)) by divlia.
  rewrite (proj2 (N.ltb_ge (240 + c / 262144) 194)) by divlia.
  rewrite (proj2 (N.ltb_ge (240 + c / 262144) 224)) by divlia.
  rewrite (proj2 (N.ltb_ge (240 + c / 262144) 240)) by divlia.
  rewrite (proj2 (N.ltb_lt (240 + c / 262144) 245)) by divlia.
  rewrite (proj2 (N.leb_le 128 (128 + (c / 4096) mod 64))) by divlia.
  rewrite (proj2 (N.ltb_lt (128 + (c / 4096) mod 64) 192)) by divlia.
  rewrite (proj2 (N.leb_le 128 (128 + (c / 64) mod 64))) by divlia.
  rewrite (proj2 (N.ltb_lt (128 + (c / 64) mod 64) 192)) by divlia.
  rewrite (proj2 (N.leb_le 128 (128 + c mod 64))) by divlia.
  rewrite (proj2 (N.ltb_lt (128 + c mod 64) 192)) by divlia.
  replace ((240 + c / 262144 - 240) * 262144
           + (128 + (c / 4096) mod 64 - 128) * 4096
           + (128 + (c / 64) mod 64 - 128) * 64
           + (128 + c mod 64 - 128)) with c by divlia.
  rewrite (proj2 (N.ltb_ge c 65536)) by lia.
  rewrite (proj2 (N.ltb_lt c 1114112)) by lia. done.
Qed.

(** [s.encode("utf-8").decode("utf-8") == s] for well-formed text. *)
Lemma utf8_decode_encode s :
  well_formed_text s = true →
  ∃ b, utf8_encode s = inr b ∧ utf8_decode b = inr s.
Proof.
  induction s as [|c s IH]; simpl; [by eexists|].
  intros [Hc Hs]%andb_true_iff.
  destruct (utf8_decode_encode_char c Hc) as (b & -> & Hb).
  destruct (IH Hs) as (bs & -> & Hbs). simpl.
  exists (b ++ bs)%list. split; [done|]. by rewrite Hb, Hbs.
Qed.

(** A surrogate makes the encoder raise, wherever it stands. *)
Lemma utf8_encode_surrogate s1 c s2 :
  is_surrogate c = true →
  well_formed_text s1 = true →
  utf8_encode (s1 ++ c :: s2) = inl UnicodeEncodeError.
Proof.
  intros Hc Hs1. destruct (utf8_decode_encode s1 Hs1) as (b1 & Hb1 & _).
  revert b1 Hb1. induction s1 as [|c1 s1 IH]; intros b1 Hb1; simpl in *.
  - unfold utf8_encode_char. rewrite Hc.
    unfold is_surrogate in Hc.
    apply andb_true_iff in Hc as [?%N.leb_le ?%N.leb_le].
    rewrite (proj2 (N.ltb_ge c 128)) by lia.
    rewrite (proj2 (N.ltb_ge c 2048)) by lia.
    by rewrite (proj2 (N.ltb_lt c 65536)) by lia.
  - apply andb_true_iff in Hs1 as [H1 Hs1].
    destruct (utf8_encode_char c1) as [?|b]; [done|]. simpl in *.
    destruct (utf8_encode s1) as [?|bs] eqn:E; [done|].
    by rewrite (IH Hs1 bs eq_refl).
Qed.

(** On bytes below 128 both decoders are the identity on values. *)
Lemma ascii_decode_ascii bs :
  Forall (λ b, Byte.to_N b < 128) bs →
  ascii_decode bs = inr (Byte.to_N <$> bs).
Proof.
  induction 1 as [|b bs Hb _ IH]; simpl; [done|].
  by rewrite (proj2 (N.ltb_lt _ _) Hb), IH.
Qed.

Lemma utf8_decode_ascii bs :
  Forall (λ b, Byte.to_N b < 128) bs →
  utf8_decode bs = inr (Byte.to_N <$> bs).
Proof.
  induction 1 as [|b bs Hb _ IH]; simpl; [done|].
  by rewrite (proj2 (N.ltb_lt _ _) Hb), IH.
Qed.

Lemma ascii_bytes_ascii bs :
  Forall (λ b, Byte.to_N b < 128) bs →
  ascii_bytes (Byte.to_N <$> bs) = inr bs.
Proof.
  induction 1 as [|b bs Hb _ IH]; [done|].
  rewrite fmap_cons. cbn [ascii_bytes].
  by rewrite (proj2 (N.ltb_lt _ _) Hb), IH, byte_of_N_to_N.
Qed.
End Utf8.

(** ** Base64 *)

Section Base64.
Local Open Scope N_scope.

Lemma b64_char_value i :
  Byte.to_N (b64_char i)
  = if i <? 26 then 65 + i
    else if i <? 52 then 97 + (i - 26)
    else if i <? 62 then 48 + (i - 52)
    else if i =? 62 then 43 else 47.
Proof.
  unfold b64_char. apply to_N_byte_of_N.
  repeat case_match; try lia;
    repeat match goal with
           | H : (_ <? _) = true |- _ => apply N.ltb_lt in H
           end; lia.
Qed.

(** Every character the encoder writes is ASCII. *)
Lemma b64_char_ascii i : Byte.to_N (b64_char i) < 128.
Proof.
  rewrite b64_char_value.
  repeat case_match; try lia;
    repeat match goal with
           | H : (_ <? _) = true |- _ => apply N.ltb_lt in H
           end; lia.
Qed.

Lemma b64_pad_ascii : Byte.to_N b64_pad < 128.
Proof. by vm_compute. Qed.

Lemma b64_index_char i : i < 64 → b64_index (b64_char i) = Some i.
Proof.
  intros Hi. unfold b64_index. rewrite b64_char_value.
  destruct (N.ltb_spec i 26).
  { rewrite (proj2 (N.leb_le 65 (65 + i))) by lia.
    rewrite (proj2 (N.leb_le (65 + i) 90)) by lia. simpl. f_equal. lia. }
  destruct (N.ltb_spec i 52).
  { rewrite (proj2 (N.leb_gt (97 + (i - 26)) 90)) by lia.
    rewrite andb_false_r.
    rewrite (proj2 (N.leb_le 97 (97 + (i - 26)))) by lia.
    rewrite (proj2 (N.leb_le (97 + (i - 26)) 122)) by lia.
    simpl. f_equal. lia. }
  destruct (N.ltb_spec i 62).
  { rewrite (proj2 (N.leb_gt 65 (48 + (i - 52)))) by lia.
    rewrite (proj2 (N.leb_gt 97 (48 + (i - 52)))) by lia.
    rewrite (proj2 (N.leb_le 48 (48 + (i - 52)))) by lia.
    rewrite (proj2 (N.leb_le (48 + (i - 52)) 57)) by lia.
    simpl. f_equal. lia. }
  destruct (N.eqb_spec i 62) as [->|Hne]; [done|].
  assert (i = 63) as -> by lia. done.
Qed.

Lemma b64_index_pad : b64_index b64_pad = None.
Proof. by vm_compute. Qed.

Lemma is_pad_pad : is_pad b64_pad = true.
Proof. by vm_compute. Qed.

(** Induction three bytes at a time, as the encoder recurses. *)
Lemma bytes_ind3 (P : bytes → Prop) :
  P [] → (∀ a, P [a]) → (∀ a b, P [a; b]) →
  (∀ a b c l, P l → P (a :: b :: c :: l)) →
  ∀ l, P l.
Proof.
  intros H0 H1 H2 H3. fix go 1.
  intros [|a [|b [|c l]]]; [exact H0|exact (H1 a)|exact (H2 a b)|].
  exact (H3 a b c l (go l)).
Qed.

Lemma b64encode_ascii bs :
  Forall (λ b, Byte.to_N b < 128) (b64encode bs).
Proof.
  induction bs as [|a|a b|a b c bs IH] using bytes_ind3; simpl;
    repeat first [apply Forall_nil | apply Forall_cons; split];
    auto using b64_char_ascii, b64_pad_ascii.
Qed.

Lemma is_b64_char i : i < 64 → is_b64 (b64_char i) = true.
Proof.
  intros Hi. unfold is_b64. rewrite b64_index_char by done.
  by rewrite bool_decide_eq_true_2.
Qed.

Lemma filter_all {A} (P : A → Prop) `{∀ x, Decision (P x)} (l : list A) :
  Forall P l → filter P l = l.
Proof.
  induction 1 as [|x l Hx _ IH]; [done|].
  rewrite filter_cons. destruct (decide (P x)); [by f_equal|done].
Qed.

(** Nothing the encoder writes is discarded by the decoder. *)
Lemma b64encode_kept bs :
  filter (λ b, Is_true (is_b64 b)) (b64encode bs) = b64encode bs.
Proof.
  apply filter_all.
  assert (Hpad : Is_true (is_b64 b64_pad)) by (by vm_compute).
  assert (Hchar : ∀ i, i < 64 → Is_true (is_b64 (b64_char i))).
  { intros i Hi. apply Is_true_true. by apply is_b64_char. }
  induction bs as [|a|a b|a b c bs IH] using bytes_ind3.
  - done.
  - pose proof (to_N_lt a). cbn [b64encode].
    repeat first [apply Forall_nil_2 | apply Forall_cons_2];
      first [exact Hpad | apply Hchar; divlia].
  - pose proof (to_N_lt a). pose proof (to_N_lt b). cbn [b64encode].
    repeat first [apply Forall_nil_2 | apply Forall_cons_2];
      first [exact Hpad | apply Hchar; divlia].
  - pose proof (to_N_lt a). pose proof (to_N_lt b). pose proof (to_N_lt c).
    cbn [b64encode].
    repeat first [exact IH | apply Forall_cons_2]; apply Hchar; divlia.
Qed.

Lemma b64decode_quanta_encode bs :
  b64decode_quanta (b64encode bs) = inr bs.
Proof.
  induction bs as [|a|a b|a b c bs IH] using bytes_ind3.
  - done.
  - pose proof (to_N_lt a).
    cbn [b64encode b64decode_quanta].
    rewrite !b64_index_char by divlia.
    rewrite b64_index_pad, is_pad_pad. simpl.
    do 2 f_equal. apply byte_of_N_eq. divlia.
  - pose proof (to_N_lt a). pose proof (to_N_lt b).
    cbn [b64encode b64decode_quanta].
    rewrite !b64_index_char by divlia.
    rewrite b64_index_pad, is_pad_pad. simpl.
    f_equal. f_equal; [|f_equal]; apply byte_of_N_eq; divlia.
  - pose proof (to_N_lt a). pose proof (to_N_lt b). pose proof (to_N_lt c).
    cbn [b64encode b64decode_quanta].
    rewrite !b64_index_char by divlia.
    rewrite IH. simpl.
    f_equal. f_equal; [|f_equal; [|f_equal]]; apply byte_of_N_eq; divlia.
Qed.

(** [base64.b64decode(base64.b64encode(bs).decode("ascii")) == bs] *)
Lemma b64decode_b64encode bs :
  b64decode (Byte.to_N <$> b64encode bs) = inr bs.
Proof.
  unfold b64decode. rewrite ascii_bytes_ascii by apply b64encode_ascii.
  simpl. rewrite b64encode_kept. apply b64decode_quanta_encode.
Qed.
End Base64.

(** ** The stand-in primitives meet the documented contract *)

Lemma pad_to_length n bs : length (Standin.pad_to n bs) = n.
Proof.
  unfold Standin.pad_to.
  rewrite length_take, length_app, length_replicate. lia.
Qed.

Lemma standin_laws : CryptoLibLaws Standin.lib.
Proof.
  split.
  - intros. apply pad_to_length.
  - intros key Hkey. exists key. split.
    { simpl. unfold Standin.new. rewrite Hkey.
      by rewrite bool_decide_eq_true_2 by set_solver. }
    intros nonce data _. exists (data ++ Standin.tag key nonce).
    split; [done|]. simpl. unfold Standin.decrypt.
    assert (Hn : (length (data ++ Standin.tag key nonce) - 16
                  = length data)%nat).
    { rewrite length_app. unfold Standin.tag. rewrite pad_to_length. lia. }
    rewrite Hn, drop_app_length, take_app_length.
    unfold Standin.same_bytes. by rewrite bool_decide_eq_true_2.
Qed.

(** ** Encrypt, then decrypt *)

Section RoundTrip.
Context {lib : CryptoLib} {laws : CryptoLibLaws lib}.

Lemma token_bytes_length n rng : length (token_bytes n rng) = n.
Proof. unfold token_bytes. by rewrite length_fmap, length_seq. Qed.

Lemma derive_key_length password salt key :
  Security.derive_key password salt = inr key → length key = 32%nat.
Proof.
  unfold Security.derive_key.
  destruct (utf8_encode password) as [?|pw]; [done|]. simpl.
  intros [= <-]. apply pbkdf2_hmac_length.
Qed.

Lemma derive_key_well_formed password salt :
  well_formed_text password = true →
  ∃ key, Security.derive_key password salt = inr key.
Proof.
  intros (pw & Hpw & _)%utf8_decode_encode.
  unfold Security.derive_key. rewrite Hpw. simpl. by eexists.
Qed.

(** cli/envsync/crypto.py *)
Lemma CryptoHelper_roundtrip self plaintext rng :
  length (CryptoHelper.key self) = 32%nat →
  well_formed_text plaintext = true →
  ∃ ev n,
    CryptoHelper.encrypt self plaintext rng = inr (ev, n)
    ∧ CryptoHelper.decrypt self ev n = inr plaintext.
Proof.
  intros Hkey (data & Henc & Hdec)%utf8_decode_encode.
  unfold CryptoHelper.encrypt, CryptoHelper.decrypt.
  pose proof (token_bytes_length 12 rng) as Hlen.
  generalize dependent (token_bytes 12 rng). intros nonce Hlen.
  destruct (AESGCM_decrypt_encrypt (CryptoHelper.key self) Hkey)
    as (aesgcm & Hnew & Hrt).
  destruct (Hrt nonce data Hlen) as (ct & Hct & Hpt).
  exists (Byte.to_N <$> b64encode ct), (Byte.to_N <$> b64encode nonce).
  rewrite Hnew. simpl. rewrite Henc. simpl. rewrite Hct. simpl.
  rewrite !ascii_decode_ascii by apply b64encode_ascii. simpl.
  split; [done|].
  rewrite !b64decode_b64encode. simpl. by rewrite Hpt.
Qed.

(** backend/app/core/security.py *)
Lemma Security_roundtrip key plaintext rng :
  length key = 32%nat →
  well_formed_text plaintext = true →
  ∃ encrypted,
    Security.encrypt_string plaintext key rng = inr encrypted
    ∧ Security.decrypt_string encrypted key = inr plaintext.
Proof.
  intros Hkey (data & Henc & Hdec)%utf8_decode_encode.
  unfold Security.encrypt_string, Security.decrypt_string,
    Security.encrypt_data, Security.decrypt_data.
  pose proof (token_bytes_length 12 rng) as Hlen.
  generalize dependent (token_bytes 12 rng). intros nonce Hlen.
  destruct (AESGCM_decrypt_encrypt key Hkey) as (aesgcm & Hnew & Hrt).
  destruct (Hrt nonce data Hlen) as (ct & Hct & Hpt).
  exists (Byte.to_N <$> b64encode (nonce ++ ct)).
  rewrite Henc. simpl. rewrite Hnew. simpl. rewrite Hct. simpl.
  rewrite utf8_decode_ascii by apply b64encode_ascii.
  split; [done|].
  rewrite b64decode_b64encode. simpl.
  by rewrite <- Hlen, take_app_length, drop_app_length, Hpt.
Qed.
End RoundTrip.

(** The encoder runs before the cipher is asked to encrypt: a plaintext
    holding a surrogate makes both encryption routines raise, whatever
    the primitives. *)
Lemma encrypt_surrogate_raises {lib : CryptoLib} self aesgcm key rng s1 c s2 :
  is_surrogate c = true →
  well_formed_text s1 = true →
  AESGCM (CryptoHelper.key self) = inr aesgcm →
  CryptoHelper.encrypt self (s1 ++ c :: s2) rng = inl UnicodeEncodeError
  ∧ Security.encrypt_string (s1 ++ c :: s2) key rng = inl UnicodeEncodeError.
Proof.
  intros Hc Hs1 Hnew. unfold CryptoHelper.encrypt, Security.encrypt_string.
  by rewrite Hnew, (utf8_encode_surrogate s1 c s2 Hc Hs1).
Qed.

(** The string made of the lone surrogate U+D800 is not encrypted: with
    a key derived from a password and a salt, both routines raise
    [UnicodeEncodeError]. *)
Lemma encrypt_lone_surrogate_raises :
  ∃ self key,
    CryptoHelper.init (lib := Standin.lib) Standin.password
      (Some Standin.salt) Standin.counter = inr self
    ∧ Security.derive_key (lib := Standin.lib) Standin.password Standin.salt
      = inr key
    ∧ CryptoHelper.encrypt (lib := Standin.lib) self Standin.lone_surrogate
        Standin.counter = inl UnicodeEncodeError
    ∧ Security.encrypt_string (lib := Standin.lib) Standin.lone_surrogate key
        Standin.counter = inl UnicodeEncodeError.
Proof.
  eexists _, _. split; [vm_compute; reflexivity|].
  split; [vm_compute; reflexivity|].
  split; vm_compute; reflexivity.
Qed.

(** C7 (as amended). For every plaintext string without surrogate code
    points and every key derived from a (password, salt) pair, encryption
    succeeds and decrypting its result with that key returns exactly the
    plaintext, for the command-line helper and for the server routines
    alike; library primitives are taken at their documented contract. *)
Theorem encrypt_decrypt_roundtrip {lib : CryptoLib} {laws : CryptoLibLaws lib}
    password salt rng0 self key plaintext rng :
  CryptoHelper.init password salt rng0 = inr self →
  Security.derive_key password (CryptoHelper.salt self) = inr key →
  well_formed_text plaintext = true →
  (∃ ev n,
     CryptoHelper.encrypt self plaintext rng = inr (ev, n)
     ∧ CryptoHelper.decrypt self ev n = inr plaintext)
  ∧ (∃ encrypted,
       Security.encrypt_string plaintext key rng = inr encrypted
       ∧ Security.decrypt_string encrypted key = inr plaintext).
Proof.
  intros Hinit Hkey Hp. split.
  - apply CryptoHelper_roundtrip; [|done].
    revert Hinit. unfold CryptoHelper.init.
    set (salt' := match salt with
                  | Some (b :: bs) => b :: bs
                  | _ => token_bytes 16 rng0
                  end).
    destruct (CryptoHelper._derive_key password salt') as [?|k] eqn:Hk;
      [done|].
    simpl. intros [= <-]. simpl. by apply (derive_key_length password salt').
  - apply Security_roundtrip; [|done]. by eapply derive_key_length.
Qed.

Lemma encrypt_decrypt_roundtrip_witness :
  (∃ ev n,
     CryptoHelper.encrypt (lib := Standin.lib)
       (CryptoHelper.mk Standin.salt
          (Standin.pad_to 32 ([Byte.x70; Byte.xc3; Byte.xa4; Byte.x73;
                               Byte.x73] ++ Standin.salt)))
       Standin.plaintext Standin.counter = inr (ev, n)
     ∧ CryptoHelper.decrypt (lib := Standin.lib)
         (CryptoHelper.mk Standin.salt
            (Standin.pad_to 32 ([Byte.x70; Byte.xc3; Byte.xa4; Byte.x73;
                                 Byte.x73] ++ Standin.salt)))
         ev n = inr Standin.plaintext)
  ∧ (∃ encrypted,
       Security.encrypt_string (lib := Standin.lib) Standin.plaintext
         (Standin.pad_to 32 ([Byte.x70; Byte.xc3; Byte.xa4; Byte.x73;
                              Byte.x73] ++ Standin.salt))
         Standin.counter = inr encrypted
       ∧ Security.decrypt_string (lib := Standin.lib) encrypted
           (Standin.pad_to 32 ([Byte.x70; Byte.xc3; Byte.xa4; Byte.x73;
                                Byte.x73] ++ Standin.salt))
         = inr Standin.plaintext).
Proof.
  apply (encrypt_decrypt_roundtrip (lib := Standin.lib)
           (laws := standin_laws) Standin.password (Some Standin.salt)
           Standin.counter);
    vm_compute; reflexivity.
Defined.

(** The helpers run: the round trip on "hé€" and U+1F600, evaluated. *)
Example roundtrip_evaluated :
  (enc ← Security.encrypt_string (lib := Standin.lib) Standin.plaintext
           (Standin.pad_to 32 Standin.salt) Standin.counter;
   Security.decrypt_string (lib := Standin.lib) enc
     (Standin.pad_to 32 Standin.salt))
  = inr Standin.plaintext
  ∧ Security.encrypt_string (lib := Standin.lib) [] 
      (Standin.pad_to 32 Standin.salt) Standin.counter
    ≫= (λ enc, Security.decrypt_string (lib := Standin.lib) enc
                 (Standin.pad_to 32 Standin.salt))
    = inr [].
Proof. split; vm_compute; reflexivity. Qed.

(** Four thousand euro signs, twelve kilobytes of UTF-8. *)
Example roundtrip_multi_kilobyte :
  Security.encrypt_string (lib := Standin.lib) (replicate 4000 8364%N)
    (Standin.pad_to 32 Standin.salt) Standin.counter
  ≫= (λ enc, Security.decrypt_string (lib := Standin.lib) enc
               (Standin.pad_to 32 Standin.salt))
  = inr (replicate 4000 8364%N).
Proof. vm_compute. reflexivity. Qed.

(** C10. For every password and salt the command-line
    [CryptoHelper._derive_key] and the server [derive_key] give the same
    result: PBKDF2-HMAC-SHA256 of the UTF-8 password with 100000
    iterations and [dklen] 32, a key of 32 bytes (and the same
    [UnicodeEncodeError] when the password cannot be encoded). *)
Theorem derive_key_agree {lib : CryptoLib} {laws : CryptoLibLaws lib}
    (password : str) (salt : bytes) :
  CryptoHelper._derive_key password salt = Security.derive_key password salt
  ∧ Security.derive_key password salt
    = map_ok (λ pw, pbkdf2_hmac "sha256" pw salt 100000 32)
        (utf8_encode password)
  ∧ (∀ key, Security.derive_key password salt = inr key → length key = 32%nat)
  ∧ (well_formed_text password = true →
     ∃ key, CryptoHelper._derive_key password salt = inr key
            ∧ Security.derive_key password salt = inr key
            ∧ length key = 32%nat).
Proof.
  split; [done|]. split; [done|]. split; [apply derive_key_length|].
  intros (key & Hkey)%(derive_key_well_formed password salt).
  exists key. split; [done|]. split; [done|]. by eapply derive_key_length.
Qed.

Lemma derive_key_agree_witness :
  CryptoHelper._derive_key (lib := Standin.lib) Standin.password Standin.salt
  = Security.derive_key (lib := Standin.lib) Standin.password Standin.salt
  ∧ Security.derive_key (lib := Standin.lib) Standin.password Standin.salt
    = map_ok (λ pw, pbkdf2_hmac (CryptoLib := Standin.lib) "sha256" pw
                      Standin.salt 100000 32)
        (utf8_encode Standin.password)
  ∧ (∀ key, Security.derive_key (lib := Standin.lib) Standin.password
              Standin.salt = inr key → length key = 32%nat)
  ∧ (well_formed_text Standin.password = true →
     ∃ key, CryptoHelper._derive_key (lib := Standin.lib) Standin.password
              Standin.salt = inr key
            ∧ Security.derive_key (lib := Standin.lib) Standin.password
                Standin.salt = inr key
            ∧ length key = 32%nat).
Proof.
  exact (derive_key_agree (lib := Standin.lib) (laws := standin_laws)
           Standin.password Standin.salt).
Defined.

(** * Further properties of the sync routes *)

(** ** Conflicts never arise from push, pull and resolve alone *)

Lemma remote_at_base_insert db id s' conflicts :
  remote_at_base db →
  SyncState.remote_version s' = SyncState.base_version s' →
  remote_at_base (mkDatabase (<[id := s']> (sync_states db)) conflicts).
Proof.
  intros Hbase Hs' id2 s2. simpl.
  destruct (decide (id = id2)) as [<-|Hne].
  - rewrite lookup_insert_eq. by intros [= <-].
  - rewrite lookup_insert_ne by done. apply Hbase.
Qed.

(** The object get-or-create returns is a stored row or a new one at
    0/0/0. *)
Lemma get_or_create_at_base u data env db pending id s :
  remote_at_base db →
  get_or_create u data env db = inr (pending, id, s) →
  SyncState.remote_version s = SyncState.base_version s.
Proof.
  intros Hbase [[_ Hsel]|(_ & _ & _ & ->)]%get_or_create_inr; [|done].
  apply select_sync_state_one in Hsel as [Hs _]. by eapply Hbase.
Qed.

Lemma conflict_detected_at_base s data :
  SyncState.remote_version s = SyncState.base_version s →
  conflict_detected s data = false.
Proof.
  intros H. apply not_true_iff_false. rewrite conflict_detected_spec. lia.
Qed.

(** What a push leaves in the store when every row is at base: the
    conflict branch is never taken. *)
Lemma push_changes_at_base settings u data env db :
  remote_at_base db →
  snd (push_changes settings u data env db) = db
  ∨ ∃ id s,
      SyncState.remote_version s = SyncState.base_version s
      ∧ snd (push_changes settings u data env db)
        = mkDatabase (<[id := accept_push data env s]> (sync_states db))
            (sync_conflicts db).
Proof.
  intros Hbase.
  destruct (push_changes_store settings u data env db)
    as [->|(pending & id & s & Hgoc & _ & [[Hc _]|[_ ->]])]; [by left|..].
  - rewrite conflict_detected_at_base in Hc; [done|].
    by eapply get_or_create_at_base.
  - right. exists id, s. split; [|done]. by eapply get_or_create_at_base.
Qed.

Lemma push_changes_not_409_at_base settings u data env db detail :
  remote_at_base db →
  fst (push_changes settings u data env db)
  ≠ HTTPException HTTP_409_CONFLICT detail.
Proof.
  intros Hbase H.
  destruct (push_changes settings u data env db) as [o db'] eqn:Hpush.
  simpl in H. subst o.
  apply push_changes_409 in Hpush as (pending & id & s & Hgoc & Hc & _).
  rewrite conflict_detected_at_base in Hc; [done|].
  by eapply get_or_create_at_base.
Qed.

Lemma step_at_base settings db r :
  remote_at_base db →
  remote_at_base (step settings db r)
  ∧ dom (sync_conflicts (step settings db r)) = dom (sync_conflicts db).
Proof.
  intros Hbase. destruct r as [u data env|u entities|cid data u now]; simpl.
  - destruct (push_changes_at_base settings u data env db Hbase)
      as [->|(id & s & Hs & ->)]; [done|].
    split; [|done]. by apply remote_at_base_insert.
  - done.
  - destruct (resolve_conflict_states cid data u now db)
      as [->|(c & s & Hc & Hs & ->)]; [done|].
    unfold resolved_db. split.
    + apply remote_at_base_insert; [done|]. simpl. by apply (Hbase _ _ Hs).
    + simpl. rewrite dom_insert_L.
      apply elem_of_dom_2 in Hc.
      by apply subseteq_union_1_L, singleton_subseteq_l.
Qed.

(** X1. From a store where every row has [remote_version = base_version] (the
    empty store is one), push, pull and resolve requests in any number
    and order keep it so, add no SyncConflict row, and no push is ever
    answered with HTTP 409. *)
Theorem no_conflict_from_push_pull_resolve settings db rs :
  remote_at_base db →
  remote_at_base (run settings db rs)
  ∧ dom (sync_conflicts (run settings db rs)) = dom (sync_conflicts db)
  ∧ ∀ u data env detail,
      fst (push_changes settings u data env (run settings db rs))
      ≠ HTTPException HTTP_409_CONFLICT detail.
Proof.
  intros Hbase.
  assert (H : remote_at_base (run settings db rs)
              ∧ dom (sync_conflicts (run settings db rs))
                = dom (sync_conflicts db)).
  { revert db Hbase. induction rs as [|r rs IH]; intros db Hbase; [done|].
    destruct (step_at_base settings db r Hbase) as [Hb1 Hd1].
    destruct (IH _ Hb1) as [Hb2 Hd2].
    change (run settings db (r :: rs))
      with (run settings (step settings db r) rs).
    split; [done|]. by rewrite Hd2. }
  destruct H as [Hb Hd]. split; [done|]. split; [done|].
  intros u data env detail. by apply push_changes_not_409_at_base.
Qed.

Lemma no_conflict_from_push_pull_resolve_witness :
  remote_at_base
    (run Scenario.configured Scenario.db_synced Scenario2.calm_session)
  ∧ dom (sync_conflicts
           (run Scenario.configured Scenario.db_synced
              Scenario2.calm_session))
    = dom (sync_conflicts Scenario.db_synced)
  ∧ ∀ u data env detail,
      fst (push_changes Scenario.configured u data env
             (run Scenario.configured Scenario.db_synced
                Scenario2.calm_session))
      ≠ HTTPException HTTP_409_CONFLICT detail.
Proof.
  apply (no_conflict_from_push_pull_resolve Scenario.configured
           Scenario.db_synced Scenario2.calm_session).
  intros id s H. simpl in H.
  apply lookup_singleton_Some in H as [_ <-]. reflexivity.
Defined.

(** ** What a push leaves alone *)


(** ** A refused push is refused again, resolved or not *)

Lemma push_changes_unconfigured settings u data env db :
  truthy (VEILCLOUD_API_KEY settings) = false →
  push_changes settings u data env db
  = (HTTPException HTTP_503_SERVICE_UNAVAILABLE
       "VeilCloud sync not configured", db).
Proof. intros H. unfold push_changes. by rewrite H. Qed.

(** Changing the status of one stored row leaves the lookup of an entity
    with the same single key, and a row with the same versions. *)
Lemma select_sync_state_set_status u t e db k s0 st conflicts id s1 :
  sync_states db !! k = Some s0 →
  select_sync_state u t e db = [(id, s1)] →
  ∃ s2,
    select_sync_state u t e
      (mkDatabase (<[k := SyncState.set_status st s0]> (sync_states db))
         conflicts) = [(id, s2)]
    ∧ (s2 = s1 ∨ s2 = SyncState.set_status st s1).
Proof.
  intros Hk Hsel.
  pose proof (select_sync_state_one _ _ _ _ _ _ Hsel) as [Hid Hw].
  revert Hsel. unfold select_sync_state. rewrite !map_to_list_one. simpl.
  intros Hf. rewrite map_filter_insert. simpl.
  destruct (decide (Is_true (where_entity u t e (SyncState.set_status st s0))))
    as [HP|HP].
  - assert (k = id ∧ s0 = s1) as [-> ->].
    { assert (Hin : filter (λ kv : string * SyncState.t,
                              Is_true (where_entity u t e kv.2))
                      (sync_states db) !! k = Some s0)
        by (apply map_lookup_filter_Some; split; done).
      rewrite Hf in Hin. by apply lookup_singleton_Some in Hin as [-> ->]. }
    exists (SyncState.set_status st s1). rewrite Hf.
    split; [|by right]. apply map_to_list_one, insert_singleton_eq.
  - exists s1. rewrite map_filter_delete, Hf. split; [|by left].
    apply map_to_list_one, delete_singleton_ne. intros ->.
    rewrite Hid in Hk. injection Hk as <-. apply HP.
    by apply Is_true_true.
Qed.

(** X3. After a push was refused with HTTP 409, the same push is refused
    with 409 again and adds a further SyncConflict row, whether or not a
    resolve request (of any conflict, with any resolution, by anyone) was
    served in between: resolving changes no version. *)
Theorem refused_push_stays_refused settings u data env db detail db1
    cid body who now env2 :
  push_changes settings u data env db
  = (HTTPException HTTP_409_CONFLICT detail, db1) →
  sync_conflicts (snd (resolve_conflict cid body who now db1))
    !! conflict_uuid env2 = None →
  ∃ id db3,
    push_changes settings u data env2
      (snd (resolve_conflict cid body who now db1))
    = (HTTPException HTTP_409_CONFLICT "Sync conflict detected", db3)
    ∧ sync_conflicts db3
      = <[conflict_uuid env2 :=
            SyncConflict.new id (SyncPush.data data) "" (utcnow env2)]>
          (sync_conflicts (snd (resolve_conflict cid body who now db1))).
Proof.
  intros Hpush Hfresh.
  assert (Hcfg : truthy (VEILCLOUD_API_KEY settings) = true).
  { destruct (truthy (VEILCLOUD_API_KEY settings)) eqn:E; [done|].
    rewrite push_changes_unconfigured in Hpush by done. done. }
  apply push_changes_409 in Hpush as (pending & id & s & Hgoc & Hc & _ & ->).
  pose proof (get_or_create_where _ _ _ _ _ _ _ Hgoc) as Hw.
  apply get_or_create_inr in Hgoc as [[_ Hsel]|(_ & _ & _ & ->)];
    [|discriminate Hc].
  set (db1 := mkDatabase _ _) in *.
  assert (Hsel1 : select_sync_state u (SyncPush.entity_type data)
                    (SyncPush.entity_id data) db1
                  = [(id, SyncState.set_status SyncStatus.CONFLICT s)])
    by (by eapply select_sync_state_update).
  assert (∃ s2, select_sync_state u (SyncPush.entity_type data)
                  (SyncPush.entity_id data)
                  (snd (resolve_conflict cid body who now db1)) = [(id, s2)]
                ∧ conflict_detected s2 data = true) as (s2 & Hsel2 & Hc2).
  { destruct (resolve_conflict_states cid body who now db1)
      as [->|(c & s0 & _ & Hs0 & ->)].
    - by eexists.
    - unfold resolved_db.
      destruct (select_sync_state_set_status _ _ _ _ _ _ SyncStatus.SYNCED
                  (<[cid := apply_resolution body who now c]>
                     (sync_conflicts db1)) _ _ Hs0 Hsel1)
        as (s2 & Hsel2 & [->| ->]); by eexists. }
  exists id. eexists. unfold push_changes, get_or_create.
  rewrite Hcfg, Hsel2. simpl. rewrite Hc2.
  unfold insert_sync_conflict. simpl. rewrite Hfresh.
  rewrite bool_decide_eq_false_2 by (by intros [? ?]). done.
Qed.

Lemma refused_push_stays_refused_witness :
  ∃ id db3,
    push_changes Scenario.configured Scenario.alice (Scenario.push 5)
      Scenario2.env2
      (snd (resolve_conflict "conflict-2"
              (ConflictResolutionBody.mk "conflict-2"
                 ConflictResolution.LOCAL_WINS None)
              Scenario.alice 200 Scenario2.db_refused))
    = (HTTPException HTTP_409_CONFLICT "Sync conflict detected", db3)
    ∧ sync_conflicts db3
      = <[conflict_uuid Scenario2.env2 :=
            SyncConflict.new id (SyncPush.data (Scenario.push 5)) ""
              (utcnow Scenario2.env2)]>
          (sync_conflicts
             (snd (resolve_conflict "conflict-2"
                     (ConflictResolutionBody.mk "conflict-2"
                        ConflictResolution.LOCAL_WINS None)
                     Scenario.alice 200 Scenario2.db_refused))).
Proof.
  apply (refused_push_stays_refused Scenario.configured Scenario.alice
           (Scenario.push 5) Scenario.env Scenario.db_stale
           "Sync conflict detected" Scenario2.db_refused);
    vm_compute; reflexivity.
Defined.

(** ** A pull after a push *)

(** X4. After an accepted push at version [v], a pull that declares version
    [k] for the same entity is answered with one update carrying [v] and
    an empty payload when [v > k], and with no update otherwise (an
    absent version counts as 0). *)
Theorem pull_after_accepted_push settings u data env db resp db' k :
  push_changes settings u data env db = (Return resp, db') →
  pull_changes settings u
    [PullEntity.mk (SyncPush.entity_type data) (SyncPush.entity_id data) k] db'
  = Return
      (if (SyncPush.local_version data >? default 0%Z k)%Z
       then [mkPullUpdate (SyncPush.entity_type data)
               (SyncPush.entity_id data) (SyncPush.local_version data) ""]
       else []).
Proof.
  intros Hpush.
  assert (Hcfg : truthy (VEILCLOUD_API_KEY settings) = true).
  { destruct (truthy (VEILCLOUD_API_KEY settings)) eqn:E; [done|].
    rewrite push_changes_unconfigured in Hpush by done. done. }
  apply push_changes_Return in Hpush
    as (pending & id & s & Hgoc & _ & _ & _ & ->).
  pose proof (get_or_create_where _ _ _ _ _ _ _ Hgoc) as Hw.
  assert (Hsel : select_sync_state u (SyncPush.entity_type data)
                   (SyncPush.entity_id data)
                   (mkDatabase (<[id := accept_push data env s]>
                                  (sync_states db)) (sync_conflicts db))
                 = [(id, accept_push data env s)]).
  { apply get_or_create_inr in Hgoc as [[_ Hsel]|(_ & _ & Hsel & _)].
    - by eapply select_sync_state_update.
    - by apply select_sync_state_insert. }
  unfold pull_changes. rewrite Hcfg. simpl. rewrite Hsel. simpl.
  unfold PullEntity.get_version. simpl.
  by destruct (_ >? _)%Z.
Qed.

Lemma pull_after_accepted_push_witness :
  pull_changes Scenario.configured Scenario.alice
    [PullEntity.mk (SyncPush.entity_type (Scenario.push 6))
       (SyncPush.entity_id (Scenario.push 6)) (Some 5%Z)]
    (snd (push_changes Scenario.configured Scenario.alice (Scenario.push 6)
            Scenario.env Scenario.db_synced))
  = Return
      (if (SyncPush.local_version (Scenario.push 6) >? default 0%Z (Some 5%Z))%Z
       then [mkPullUpdate (SyncPush.entity_type (Scenario.push 6))
               (SyncPush.entity_id (Scenario.push 6))
               (SyncPush.local_version (Scenario.push 6)) ""]
       else []).
Proof.
  apply (pull_after_accepted_push Scenario.configured Scenario.alice
           (Scenario.push 6) Scenario.env Scenario.db_synced
           (mkPushResponse true 6)).
  vm_compute. reflexivity.
Defined.

(** ** Resolve: who is answered, and what is left alone *)


(** X6. A resolve request adds and removes no row. Apart from the resolved
    conflict every SyncConflict row is unchanged, the resolved one keeps
    its SyncState reference, payloads and detection time, and every
    SyncState row is unchanged except, at most, for its status. *)
Theorem resolve_conflict_frame cid data u now db :
  let db' := snd (resolve_conflict cid data u now db) in
  dom (sync_states db') = dom (sync_states db)
  ∧ dom (sync_conflicts db') = dom (sync_conflicts db)
  ∧ (∀ k, k ≠ cid → sync_conflicts db' !! k = sync_conflicts db !! k)
  ∧ (∀ c, sync_conflicts db !! cid = Some c →
       ∃ c', sync_conflicts db' !! cid = Some c'
             ∧ SyncConflict.sync_state_id c' = SyncConflict.sync_state_id c
             ∧ SyncConflict.local_data c' = SyncConflict.local_data c
             ∧ SyncConflict.remote_data c' = SyncConflict.remote_data c
             ∧ SyncConflict.base_data c' = SyncConflict.base_data c
             ∧ SyncConflict.detected_at c' = SyncConflict.detected_at c)
  ∧ (∀ id s, sync_states db !! id = Some s →
       ∃ st, sync_states db' !! id = Some (SyncState.set_status st s)).
Proof.
  intros db'. subst db'.
  assert (Hid : ∀ s, SyncState.set_status (SyncState.status s) s = s)
    by (by intros []).
  destruct (resolve_conflict_states cid data u now db)
    as [->|(c & s & Hc & Hs & ->)].
  - split; [done|]. split; [done|]. split; [done|]. split.
    + intros c Hc. by exists c.
    + intros id s Hs. exists (SyncState.status s). by rewrite Hid.
  - unfold resolved_db. simpl. split; [|split; [|split; [|split]]].
    + apply dom_insert_lookup_L. by eexists.
    + apply dom_insert_lookup_L. by eexists.
    + intros k Hk. by rewrite lookup_insert_ne.
    + intros c0 Hc0. rewrite Hc in Hc0. injection Hc0 as <-.
      eexists. rewrite lookup_insert_eq. by split.
    + intros id s0 Hs0.
      destruct (decide (SyncConflict.sync_state_id c = id)) as [<-|Hne].
      * rewrite Hs in Hs0. injection Hs0 as <-.
        exists SyncStatus.SYNCED. by rewrite lookup_insert_eq.
      * exists (SyncState.status s0).
        by rewrite lookup_insert_ne, Hid by done.
Qed.

(** ** The list of pending conflicts *)









(** ** The status route and the configuration test of the other routes *)

(** X10. [get_sync_status] reports no error exactly when a push is not
    refused with HTTP 503, and then it reports connected. The converse
    fails for one setting only: with the empty string as API key the
    status says connected (and authenticated) while it reports the error
    and every push is refused. *)
Theorem status_error_iff_push_refused settings u data env db :
  (error (get_sync_status settings) = None
   ↔ fst (push_changes settings u data env db)
     ≠ HTTPException HTTP_503_SERVICE_UNAVAILABLE
         "VeilCloud sync not configured")
  ∧ (error (get_sync_status settings) = None →
     connected (get_sync_status settings) = true)
  ∧ (connected (get_sync_status settings) = true
     ∧ error (get_sync_status settings) ≠ None
     ↔ VEILCLOUD_API_KEY settings = Some "")
  ∧ authenticated (get_sync_status settings)
    = connected (get_sync_status settings).
Proof.
  unfold get_sync_status. simpl.
  destruct (truthy (VEILCLOUD_API_KEY settings)) eqn:Hcfg.
  - split; [|split; [|split; [|done]]].
    + split; [|done]. intros _ H.
      destruct (push_changes settings u data env db) as [o db'] eqn:Hpush.
      simpl in H. subst o. revert Hpush. unfold push_changes.
      rewrite Hcfg. simpl.
      destruct (get_or_create _ _ _ _) as [?|[[? ?] ?]]; [done|].
      destruct (conflict_detected _ _).
      * destruct (flush_sync_state _ _ _ _); [done|].
        by destruct (insert_sync_conflict _ _ _).
      * by destruct (flush_sync_state _ _ _ _).
    + intros _. by destruct (VEILCLOUD_API_KEY settings).
    + split; [by intros [_ ?]|]. intros H. rewrite H in Hcfg. done.
  - rewrite push_changes_unconfigured by done. simpl.
    split; [|split; [|split; [|done]]].
    + split; [done|]. by intros [].
    + done.
    + destruct (VEILCLOUD_API_KEY settings) as [k|]; simpl in *.
      * split; [|done]. intros _. f_equal.
        apply negb_false_iff, String.eqb_eq in Hcfg. done.
      * split; [by intros [? _]|done].
Qed.

(** * The bulk sync route *)

Section Bulk.
Variable current_user : User.t.
Variable env : SyncEnv.t.

Abbreviation u := (User.id current_user).

(** The store after one project was marked as synced under the primary
    key [id]. *)
Lemma sync_project_inr pid p st st' :
  sync_project current_user env (pid, p) st = inr st' →
  let db := Store.sync (SyncLoop.store st) in
  ((2 ≤ length (select_sync_state u "project" pid db))%nat
   ∧ st' = SyncLoop.mk (SyncLoop.store st) (SyncLoop.pushed st)
             (SyncLoop.errors st
              ++ [("Project " ++ Project.name p ++ ": "
                   ++ str_exc MultipleResultsFound)%string])
             (SyncLoop.uuids st) (SyncLoop.ticks st))
  ∨ ∃ id s,
      ((select_sync_state u "project" pid db = [(id, s)]
        ∧ SyncLoop.uuids st' = SyncLoop.uuids st)
       ∨ (select_sync_state u "project" pid db = []
          ∧ id = SyncEnv.uuid4 env (SyncLoop.uuids st)
          ∧ s = SyncState.new u "project" pid ("projects/" ++ pid)
          ∧ sync_states db !! id = None
          ∧ SyncLoop.uuids st' = S (SyncLoop.uuids st)))
      ∧ SyncLoop.store st'
        = Store.mk
            (mkDatabase
               (<[id := mark_synced p (SyncEnv.now env (SyncLoop.ticks st)) s]>
                  (sync_states db))
               (sync_conflicts db))
            (<[pid := Project.set_last_synced_at
                        (Some (SyncEnv.now env (S (SyncLoop.ticks st))))
                        (Project.set_sync_enabled true p)]>
               (Store.projects (SyncLoop.store st)))
            (Store.audit_logs (SyncLoop.store st))
      ∧ SyncLoop.pushed st' = (SyncLoop.pushed st + 1)%Z
      ∧ SyncLoop.errors st' = SyncLoop.errors st
      ∧ SyncLoop.ticks st' = S (S (SyncLoop.ticks st)).
Proof.
  intros H db. unfold sync_project in H. cbn [fst snd] in H. fold db in H.
  destruct (select_sync_state u "project" pid db) as [|[id s] [|kv rows]]
    eqn:Hsel; cbn [scalar_one_or_none] in H.
  - destruct (flush_sync_state _ _ _ _) as [?|db1] eqn:Hflush; [done|].
    apply flush_sync_state_inr in Hflush as [-> Hnone].
    injection H as <-. right. eexists _, _. split; [right|done].
    split_and!; try done. by apply Hnone.
  - destruct (flush_sync_state _ _ _ _) as [?|db1] eqn:Hflush; [done|].
    apply flush_sync_state_inr in Hflush as [-> _].
    injection H as <-. right. eexists _, _. split; [by left|done].
  - injection H as <-. left. split; [simpl; lia|done].
Qed.

(** With unused UUIDs ahead, the body ends without an exception. *)
Lemma sync_project_returns pid p st :
  sync_states (Store.sync (SyncLoop.store st))
    !! SyncEnv.uuid4 env (SyncLoop.uuids st) = None →
  ∃ st', sync_project current_user env (pid, p) st = inr st'.
Proof.
  intros Hfresh. unfold sync_project. cbn [fst snd].
  destruct (scalar_one_or_none _) as [e|[[id s]|]]; [by eexists|..].
  - rewrite flush_sync_state_ok by done. by eexists.
  - rewrite flush_sync_state_ok by done. by eexists.
Qed.

Lemma where_entity_mark_synced t e p at_ s :
  where_entity u t e (mark_synced p at_ s) = where_entity u t e s.
Proof. done. Qed.

Lemma where_entity_new pid :
  where_entity u "project" pid
    (SyncState.new u "project" pid ("projects/" ++ pid)) = true.
Proof. apply where_entity_spec. done. Qed.

(** A row belongs to one entity only. *)
Lemma where_entity_inj t e e' s :
  where_entity u t e s = true → where_entity u t e' s = true → e = e'.
Proof.
  intros (_ & _ & <-)%where_entity_spec (_ & _ & <-)%where_entity_spec.
  done.
Qed.

(** The lookup of an entity depends on the rows of that entity only. *)
Lemma select_sync_state_ext t e db db' :
  (∀ id s, where_entity u t e s = true →
     sync_states db' !! id = Some s ↔ sync_states db !! id = Some s) →
  select_sync_state u t e db' = select_sync_state u t e db.
Proof.
  intros H. unfold select_sync_state. f_equal.
  apply map_eq. intros id. apply option_eq. intros s.
  rewrite !map_lookup_filter_Some. simpl.
  split; intros [Hs Hw]; (split; [|done]);
    apply Is_true_true in Hw; by apply (H id s Hw).
Qed.

(** What the loop leaves alone: the conflicts and the audit trail, the
    projects it was not given, and every SyncState row except those of
    the projects it was given, which it rewrites or creates. *)
Lemma sync_loop_inr l st st' :
  sync_loop current_user env l st = inr st' →
  let db := Store.sync (SyncLoop.store st) in
  let db' := Store.sync (SyncLoop.store st') in
  (SyncLoop.pushed st' + Z.of_nat (length (SyncLoop.errors st'))
   = SyncLoop.pushed st + Z.of_nat (length (SyncLoop.errors st))
     + Z.of_nat (length l))%Z
  ∧ sync_conflicts db' = sync_conflicts db
  ∧ Store.audit_logs (SyncLoop.store st')
    = Store.audit_logs (SyncLoop.store st)
  ∧ (∀ pid, pid ∉ l.*1 →
       Store.projects (SyncLoop.store st') !! pid
       = Store.projects (SyncLoop.store st) !! pid)
  ∧ (∀ id,
       sync_states db' !! id = sync_states db !! id
       ∨ ∃ pid p at_ s,
           (pid, p) ∈ l
           ∧ sync_states db' !! id = Some (mark_synced p at_ s)
           ∧ where_entity u "project" pid s = true
           ∧ (sync_states db !! id = Some s
              ∨ (sync_states db !! id = None
                 ∧ s = SyncState.new u "project" pid ("projects/" ++ pid))))
  ∧ (∀ pid,
       Store.projects (SyncLoop.store st') !! pid
       = Store.projects (SyncLoop.store st) !! pid
       ∨ ∃ p at_,
           (pid, p) ∈ l
           ∧ Store.projects (SyncLoop.store st') !! pid
             = Some (Project.set_last_synced_at (Some at_)
                       (Project.set_sync_enabled true p))).
Proof.
  revert st. induction l as [|[pid p] l IH]; intros st H.
  { injection H as <-. simpl. split_and!; try done; [lia|by left..]. }
  cbn [sync_loop] in H.
  destruct (sync_project current_user env (pid, p) st) as [?|st1] eqn:Hstep;
    [done|].
  destruct (IH st1 H) as (Hcount & Hconf & Hlogs & Hproj & Hrows & Hprojs).
  apply sync_project_inr in Hstep. cbn zeta in *.
  rewrite fmap_cons. cbn [fst].
  destruct Hstep as [[_ ->]|(id & s & Hsel & Hstore & Hpushed & Herr & _)].
  - cbn [SyncLoop.store SyncLoop.pushed SyncLoop.errors] in *.
    rewrite length_app in Hcount. cbn [length] in *.
    split_and!; try done; [lia| | |].
    + intros pid' [_ Hnot]%not_elem_of_cons. by apply Hproj.
    + intros id0.
      destruct (Hrows id0) as [?|(pid' & p' & at_ & s' & ? & ?)];
        [by left|right]. exists pid', p', at_, s'.
      split; [by apply list_elem_of_further|done].
    + intros pid0.
      destruct (Hprojs pid0) as [?|(p' & at_ & ? & ?)]; [by left|right].
      exists p', at_. split; [by apply list_elem_of_further|done].
  - rewrite Hstore in *. cbn [Store.sync Store.projects Store.audit_logs
      sync_states sync_conflicts] in *.
    rewrite Hpushed, Herr in Hcount. cbn [length].
    set (at0 := SyncEnv.now env (SyncLoop.ticks st)) in *.
    assert (Hold : where_entity u "project" pid s = true
                   ∧ (sync_states (Store.sync (SyncLoop.store st)) !! id
                      = Some s
                      ∨ (sync_states (Store.sync (SyncLoop.store st)) !! id
                         = None
                         ∧ s = SyncState.new u "project" pid
                                 ("projects/" ++ pid)))).
    { destruct Hsel as [[Hsel _]|(_ & _ & -> & Hnone & _)].
      - apply select_sync_state_one in Hsel as [Hs Hw]. split; [done|by left].
      - split; [apply where_entity_new|by right]. }
    destruct Hold as [Hw Hold].
    split_and!; try done; [lia| | |].
    + intros pid' [Hne Hnot]%not_elem_of_cons. rewrite Hproj by done.
      by apply lookup_insert_ne.
    + intros id0. destruct (decide (id0 = id)) as [->|Hne].
      * right.
        destruct (Hrows id)
          as [Heq|(pid' & p' & at_ & s' & Hin & Hs' & Hw' & Hprev)].
        -- rewrite lookup_insert_eq in Heq. exists pid, p, at0, s.
           split; [apply list_elem_of_here|]. done.
        -- rewrite lookup_insert_eq in Hprev.
           destruct Hprev as [[= <-]|[[=] _]].
           rewrite where_entity_mark_synced in Hw'.
           rewrite <- (where_entity_inj _ _ _ _ Hw Hw') in *.
           exists pid, p', at_, s.
           split; [by apply list_elem_of_further|]. done.
      * destruct (Hrows id0)
          as [Heq|(pid' & p' & at_ & s' & Hin & Hs' & Hw' & Hprev)].
        -- left. by rewrite Heq, lookup_insert_ne.
        -- right. rewrite lookup_insert_ne in Hprev by done.
           exists pid', p', at_, s'.
           split; [by apply list_elem_of_further|done].
    + intros pid0.
      destruct (Hprojs pid0) as [Heq|(p' & at_ & ? & ?)].
      * destruct (decide (pid0 = pid)) as [->|Hne].
        -- right. rewrite lookup_insert_eq in Heq. eexists p, _.
           split; [apply list_elem_of_here|done].
        -- left. by rewrite Heq, lookup_insert_ne.
      * right. exists p', at_. split; [by apply list_elem_of_further|done].
Qed.

Hypothesis uuid4_inj :
  ∀ i j, SyncEnv.uuid4 env i = SyncEnv.uuid4 env j → i = j.

(** The UUIDs not drawn yet stay unused. *)
Lemma sync_project_fresh pid p st st' :
  (∀ i, (SyncLoop.uuids st ≤ i)%nat →
     sync_states (Store.sync (SyncLoop.store st)) !! SyncEnv.uuid4 env i
     = None) →
  sync_project current_user env (pid, p) st = inr st' →
  (SyncLoop.uuids st ≤ SyncLoop.uuids st')%nat
  ∧ ∀ i, (SyncLoop.uuids st' ≤ i)%nat →
      sync_states (Store.sync (SyncLoop.store st')) !! SyncEnv.uuid4 env i
      = None.
Proof.
  intros Hfresh Hstep. apply sync_project_inr in Hstep. cbn zeta in Hstep.
  destruct Hstep as [[_ ->]|(id & s & Hsel & Hstore & _)]; [done|].
  rewrite Hstore. cbn [Store.sync sync_states].
  destruct Hsel as [[Hsel ->]|(_ & -> & _ & _ & ->)].
  - split; [done|]. intros i Hi.
    apply select_sync_state_one in Hsel as [Hs _].
    rewrite lookup_insert_ne; [by apply Hfresh|].
    intros ->. rewrite Hfresh in Hs by done. done.
  - split; [lia|]. intros i Hi.
    rewrite lookup_insert_ne; [apply Hfresh; lia|].
    intros Heq%uuid4_inj. lia.
Qed.

Lemma sync_loop_returns l st :
  (∀ i, (SyncLoop.uuids st ≤ i)%nat →
     sync_states (Store.sync (SyncLoop.store st)) !! SyncEnv.uuid4 env i
     = None) →
  ∃ st',
    sync_loop current_user env l st = inr st'
    ∧ (SyncLoop.uuids st ≤ SyncLoop.uuids st')%nat.
Proof.
  revert st. induction l as [|[pid p] l IH]; intros st Hfresh.
  { by exists st. }
  destruct (sync_project_returns pid p st) as [st1 Hstep];
    [by apply Hfresh|].
  destruct (sync_project_fresh pid p st st1 Hfresh Hstep) as [Hle Hfresh1].
  destruct (IH st1 Hfresh1) as (st' & Hloop & Hle').
  exists st'. cbn [sync_loop]. rewrite Hstep. split; [done|lia].
Qed.

(** With one row per entity, every given project is marked as synced
    in its own row, the stored one or a new one, and no error is
    recorded. *)
Lemma sync_loop_one_row l st :
  NoDup l.*1 →
  (∀ i, (SyncLoop.uuids st ≤ i)%nat →
     sync_states (Store.sync (SyncLoop.store st)) !! SyncEnv.uuid4 env i
     = None) →
  one_row_per_entity (Store.sync (SyncLoop.store st)) →
  ∃ st',
    sync_loop current_user env l st = inr st'
    ∧ one_row_per_entity (Store.sync (SyncLoop.store st'))
    ∧ SyncLoop.errors st' = SyncLoop.errors st
    ∧ ∀ pid p, (pid, p) ∈ l →
        ∃ id at_ at2,
          select_sync_state u "project" pid (Store.sync (SyncLoop.store st'))
          = [(id,
              mark_synced p at_
                match select_sync_state u "project" pid
                        (Store.sync (SyncLoop.store st)) with
                | [(_, s)] => s
                | _ => SyncState.new u "project" pid ("projects/" ++ pid)
                end)]
          ∧ (∀ id0 s0,
               select_sync_state u "project" pid
                 (Store.sync (SyncLoop.store st)) = [(id0, s0)] → id = id0)
          ∧ Store.projects (SyncLoop.store st') !! pid
            = Some (Project.set_last_synced_at (Some at2)
                      (Project.set_sync_enabled true p)).
Proof.
  revert st. induction l as [|[pid p] l IH]; intros st Hdup Hfresh Hone.
  { exists st. split_and!; try done. by intros ?? ?%elem_of_nil. }
  rewrite fmap_cons in Hdup. cbn [fst] in Hdup.
  apply NoDup_cons in Hdup as [Hpid Hdup].
  destruct (sync_project_returns pid p st) as [st1 Hstep];
    [by apply Hfresh|].
  destruct (sync_project_fresh pid p st st1 Hfresh Hstep) as [_ Hfresh1].
  apply sync_project_inr in Hstep as Hst1. cbn zeta in Hst1.
  destruct Hst1 as [[Hlen _]|(id & s & Hsel & Hstore & _ & Herr & _)].
  { pose proof (select_sync_state_unique u "project" pid _ Hone). lia. }
  set (s1 := mark_synced p (SyncEnv.now env (SyncLoop.ticks st)) s) in *.
  assert (Hs : s = match select_sync_state u "project" pid
                           (Store.sync (SyncLoop.store st)) with
                   | [(_, s)] => s
                   | _ => SyncState.new u "project" pid ("projects/" ++ pid)
                   end).
  { by destruct Hsel as [[-> _]|(-> & _ & -> & _)]. }
  assert (Hw : where_entity u "project" pid s1 = true).
  { unfold s1. rewrite where_entity_mark_synced.
    destruct Hsel as [[Hsel _]|(_ & _ & -> & _)].
    - by apply select_sync_state_one in Hsel as [_ ?].
    - apply where_entity_new. }
  assert (Hsel1 : select_sync_state u "project" pid
                    (Store.sync (SyncLoop.store st1)) = [(id, s1)]).
  { rewrite Hstore. cbn [Store.sync].
    destruct Hsel as [[Hsel _]|(Hsel & _)].
    - by eapply select_sync_state_update.
    - by apply select_sync_state_insert. }
  assert (Hone1 : one_row_per_entity (Store.sync (SyncLoop.store st1))).
  { rewrite Hstore. cbn [Store.sync].
    destruct Hsel as [[Hsel _]|(Hsel & _ & -> & _)].
    - apply select_sync_state_one in Hsel as [Hlook _].
      by apply (one_row_per_entity_update _ _ s).
    - apply one_row_per_entity_insert; [done|].
      intros id2 s2 Hs2 (Hu & Ht & He). exfalso.
      assert (Hin : (id2, s2) ∈ select_sync_state u "project" pid
                                  (Store.sync (SyncLoop.store st))).
      { apply select_sync_state_elem. split; [done|].
        apply where_entity_spec. by rewrite <- Hu, <- Ht, <- He. }
      rewrite Hsel in Hin. by apply elem_of_nil in Hin. }
  destruct (IH st1 Hdup Hfresh1 Hone1) as (st' & Hloop & Hone' & Herr' & Hall).
  exists st'. cbn [sync_loop]. rewrite Hstep.
  split; [done|]. split; [done|]. split; [congruence|].
  destruct (sync_loop_inr l st1 st' Hloop) as (_ & _ & _ & Hproj & Hrows & _).
  cbn zeta in Hrows.
  (* the rows of an entity that is not among the projects still to
     come are not touched by the rest of the loop *)
  assert (Hkeep : ∀ e, e ∉ l.*1 →
            select_sync_state u "project" e (Store.sync (SyncLoop.store st'))
            = select_sync_state u "project" e
                (Store.sync (SyncLoop.store st1))).
  { intros e He. apply select_sync_state_ext. intros id0 s0 Hw0.
    destruct (Hrows id0)
      as [->|(pid' & p' & at_ & s' & Hin & Hs' & Hw' & Hprev)]; [done|].
    assert (Hin' : pid' ∈ l.*1).
    { apply list_elem_of_fmap. by exists (pid', p'). }
    split; intros Hlook.
    - rewrite Hs' in Hlook. injection Hlook as <-.
      rewrite where_entity_mark_synced in Hw0.
      by rewrite (where_entity_inj _ _ _ _ Hw0 Hw') in He.
    - destruct Hprev as [Hprev|[Hprev _]]; [|congruence].
      rewrite Hlook in Hprev. injection Hprev as ->.
      by rewrite (where_entity_inj _ _ _ _ Hw0 Hw') in He. }
  intros pid' p' [[= -> ->]|Hin]%elem_of_cons.
  - exists id, (SyncEnv.now env (SyncLoop.ticks st)),
      (SyncEnv.now env (S (SyncLoop.ticks st))).
    rewrite Hkeep, Hsel1, <- Hs by done. split; [done|]. split.
    { intros id0 s0 Hsel0.
      destruct Hsel as [[Hsel _]|(Hsel & _)]; congruence. }
    rewrite Hproj by done. rewrite Hstore. cbn [Store.projects].
    apply lookup_insert_eq.
  - destruct (Hall pid' p' Hin) as (id' & at_ & at2 & Hsel' & Hid' & Hp').
    exists id', at_, at2.
    assert (Hne : pid' ≠ pid).
    { intros ->. apply Hpid. apply list_elem_of_fmap. by exists (pid, p'). }
    replace (select_sync_state u "project" pid'
               (Store.sync (SyncLoop.store st)))
      with (select_sync_state u "project" pid'
              (Store.sync (SyncLoop.store st1))); [done|].
    apply select_sync_state_ext. intros id0 s0 Hw0.
    rewrite Hstore. cbn [Store.sync sync_states].
    destruct (decide (id0 = id)) as [->|Hne0];
      [|by rewrite lookup_insert_ne].
    rewrite lookup_insert_eq. split.
    + intros [= <-]. by destruct (Hne (where_entity_inj _ _ _ _ Hw0 Hw)).
    + intros Hlook. exfalso. apply Hne.
      destruct Hsel as [[Hsel _]|(_ & _ & _ & Hnone & _)]; [|congruence].
      apply select_sync_state_one in Hsel as [Hlook' Hw'].
      rewrite Hlook in Hlook'. injection Hlook' as ->.
      by apply (where_entity_inj _ _ _ _ Hw0 Hw').
Qed.
End Bulk.

Lemma select_projects_elem current_user data projects pid p :
  (pid, p) ∈ select_projects current_user data projects
  ↔ projects !! pid = Some p ∧ where_project current_user data (pid, p) = true.
Proof.
  unfold select_projects.
  rewrite elem_of_map_to_list, map_lookup_filter_Some. simpl.
  by rewrite Is_true_true.
Qed.

Lemma select_projects_NoDup current_user data projects :
  NoDup (select_projects current_user data projects).*1.
Proof. apply NoDup_fst_map_to_list. Qed.

Lemma _log_action_ok settings user action details id audit_logs :
  audit_logs !! id = None →
  _log_action settings user action details id audit_logs
  = inr (if AUDIT_LOG_ENABLED settings
         then <[id := AuditLog.new (User.id user) (User.email user) action
                        "sync" details]> audit_logs
         else audit_logs).
Proof.
  intros Hnone. unfold _log_action.
  destruct (AUDIT_LOG_ENABLED settings); [|done]. simpl.
  rewrite bool_decide_eq_false_2; [done|].
  rewrite Hnone. by intros [? ?].
Qed.

(** The request as the loop followed by the audit entry. *)
Lemma sync_projects_Return settings current_user data env store st :
  truthy (VEILCLOUD_API_KEY (sync_settings settings)) = true →
  sync_loop current_user env
    (select_projects current_user data (Store.projects store))
    (SyncLoop.mk store 0 [] 0 0) = inr st →
  Store.audit_logs store !! SyncEnv.uuid4 env (SyncLoop.uuids st) = None →
  sync_projects settings current_user data env store
  = (Return (SyncResponse.mk
               (Nat.eqb (length (SyncLoop.errors st)) 0)
               (SyncLoop.pushed st) 0 0 (SyncLoop.errors st)
               (SyncEnv.now env (SyncLoop.ticks st))),
     Store.mk (Store.sync (SyncLoop.store st))
       (Store.projects (SyncLoop.store st))
       (if AUDIT_LOG_ENABLED settings
        then <[SyncEnv.uuid4 env (SyncLoop.uuids st)
               := AuditLog.new (User.id current_user)
                    (User.email current_user) "sync.complete" "sync"
                    (pretty.pretty (SyncLoop.pushed st) ++ " pushed, "
                     ++ pretty.pretty 0%Z ++ " pulled")]>
               (Store.audit_logs store)
        else Store.audit_logs store)).
Proof.
  intros Hcfg Hloop Hnone. unfold sync_projects. rewrite Hcfg. cbn zeta.
  cbn [negb]. rewrite Hloop.
  destruct (sync_loop_inr _ _ _ _ _ Hloop) as (_ & _ & Hlogs & _).
  cbn [SyncLoop.store] in Hlogs. rewrite Hlogs.
  by rewrite _log_action_ok.
Qed.

(** ** The response of a bulk sync *)

(** X16. A configured bulk sync whose drawn UUIDs are unused returns a
    response: every project of the caller that the request selects is
    either counted in [pushed] or reported in [errors], nothing is
    pulled and no conflict is counted, [success] says that [errors] is
    empty, which is the case when the store has one row per entity; and
    the audit trail gains exactly one entry, "<pushed> pushed, 0
    pulled", when audit logging is enabled, none otherwise. *)
Theorem sync_projects_response settings current_user data env store :
  truthy (VEILCLOUD_API_KEY (sync_settings settings)) = true →
  fresh_uuids env store →
  ∃ resp store',
    sync_projects settings current_user data env store
    = (Return resp, store')
    ∧ (SyncResponse.pushed resp
       + Z.of_nat (length (SyncResponse.errors resp))
       = Z.of_nat (length (select_projects current_user data
                             (Store.projects store))))%Z
    ∧ SyncResponse.pulled resp = 0%Z
    ∧ SyncResponse.conflicts resp = 0%Z
    ∧ (SyncResponse.success resp = true ↔ SyncResponse.errors resp = [])
    ∧ (one_row_per_entity (Store.sync store) →
       SyncResponse.errors resp = [])
    ∧ ∃ id,
        Store.audit_logs store !! id = None
        ∧ Store.audit_logs store'
          = if AUDIT_LOG_ENABLED settings
            then <[id := AuditLog.new (User.id current_user)
                           (User.email current_user) "sync.complete" "sync"
                           (pretty.pretty (SyncResponse.pushed resp)
                            ++ " pushed, 0 pulled")]>
                   (Store.audit_logs store)
            else Store.audit_logs store.
Proof.
  intros Hcfg (Hinj & Hfresh & Hlogs).
  set (l := select_projects current_user data (Store.projects store)).
  set (st0 := SyncLoop.mk store 0 [] 0 0).
  destruct (sync_loop_returns current_user env Hinj l st0) as (st & Hloop & _).
  { intros i _. apply Hfresh. }
  destruct (sync_loop_inr _ _ _ _ _ Hloop) as (Hcount & _).
  eexists _, _. split.
  { apply (sync_projects_Return _ _ _ _ _ st); [done|done|apply Hlogs]. }
  cbn [SyncResponse.pushed SyncResponse.errors SyncResponse.pulled
       SyncResponse.conflicts SyncResponse.success Store.audit_logs].
  split; [simpl in Hcount; lia|]. split; [done|]. split; [done|]. split.
  { rewrite Nat.eqb_eq. by destruct (SyncLoop.errors st). }
  split.
  - intros Hone.
    destruct (sync_loop_one_row current_user env Hinj l st0)
      as (st' & Hloop' & _ & Herr & _).
    + apply select_projects_NoDup.
    + intros i _. apply Hfresh.
    + done.
    + rewrite Hloop in Hloop'. by injection Hloop' as <-.
  - exists (SyncEnv.uuid4 env (SyncLoop.uuids st)). split; [apply Hlogs|].
    done.
Qed.

(** A bulk sync on a store with one row per entity, spelled out. *)
Lemma sync_projects_one_row settings current_user data env store :
  truthy (VEILCLOUD_API_KEY (sync_settings settings)) = true →
  fresh_uuids env store →
  one_row_per_entity (Store.sync store) →
  ∃ resp store',
    sync_projects settings current_user data env store
    = (Return resp, store')
    ∧ one_row_per_entity (Store.sync store')
    ∧ sync_conflicts (Store.sync store') = sync_conflicts (Store.sync store)
    ∧ ∀ pid p,
        Store.projects store !! pid = Some p →
        where_project current_user data (pid, p) = true →
        ∃ id at_ at2,
          select_sync_state (User.id current_user) "project" pid
            (Store.sync store')
          = [(id,
              mark_synced p at_
                match select_sync_state (User.id current_user) "project" pid
                        (Store.sync store) with
                | [(_, s)] => s
                | _ => SyncState.new (User.id current_user) "project" pid
                         ("projects/" ++ pid)
                end)]
          ∧ (∀ id0 s0,
               select_sync_state (User.id current_user) "project" pid
                 (Store.sync store) = [(id0, s0)] → id = id0)
          ∧ Store.projects store' !! pid
            = Some (Project.set_last_synced_at (Some at2)
                      (Project.set_sync_enabled true p)).
Proof.
  intros Hcfg (Hinj & Hfresh & Hlogs) Hone.
  set (l := select_projects current_user data (Store.projects store)).
  set (st0 := SyncLoop.mk store 0 [] 0 0).
  destruct (sync_loop_one_row current_user env Hinj l st0)
    as (st & Hloop & Hone' & _ & Hall).
  { apply select_projects_NoDup. }
  { intros i _. apply Hfresh. }
  { done. }
  destruct (sync_loop_inr _ _ _ _ _ Hloop) as (_ & Hconf & _).
  eexists _, _. split.
  { apply (sync_projects_Return _ _ _ _ _ st); [done|done|apply Hlogs]. }
  cbn [Store.sync Store.projects]. split; [done|]. split; [done|].
  intros pid p Hp Hw. apply Hall. by apply select_projects_elem.
Qed.

Lemma base_version_mark_synced p at_ s :
  SyncState.base_version (mark_synced p at_ s) = SyncState.base_version s.
Proof. done. Qed.

Lemma base_of_spec user_id entity_id db :
  SyncState.base_version
    match select_sync_state user_id "project" entity_id db with
    | [(_, s)] => s
    | _ => SyncState.new user_id "project" entity_id
             ("projects/" ++ entity_id)
    end
  = base_of user_id "project" entity_id db.
Proof.
  unfold base_of.
  by destruct (select_sync_state user_id "project" entity_id db)
    as [|[? ?] [|? ?]].
Qed.

(** ** What a bulk sync writes *)

(** X17. On a store with one row per entity, a configured bulk sync leaves
    every selected project of the caller with exactly one SyncState
    row, whose status is SYNCED and whose local and remote versions are
    the project's [sync_version]; [base_version] is not written (it
    keeps the stored value, or is 0 in a new row), and neither are the
    hashes. The project itself is flagged [sync_enabled] with a sync
    time, and the store still has one row per entity. *)
Theorem sync_projects_marks_synced settings current_user data env store
    pid p :
  truthy (VEILCLOUD_API_KEY (sync_settings settings)) = true →
  fresh_uuids env store →
  one_row_per_entity (Store.sync store) →
  Store.projects store !! pid = Some p →
  where_project current_user data (pid, p) = true →
  ∃ resp store' id s at_ at2,
    sync_projects settings current_user data env store
    = (Return resp, store')
    ∧ one_row_per_entity (Store.sync store')
    ∧ select_sync_state (User.id current_user) "project" pid
        (Store.sync store') = [(id, s)]
    ∧ SyncState.status s = SyncStatus.SYNCED
    ∧ SyncState.local_version s = Project.sync_version p
    ∧ SyncState.remote_version s = Project.sync_version p
    ∧ SyncState.base_version s
      = base_of (User.id current_user) "project" pid (Store.sync store)
    ∧ SyncState.last_sync_at s = Some at_
    ∧ (∀ id0 s0,
         select_sync_state (User.id current_user) "project" pid
           (Store.sync store) = [(id0, s0)] →
         id = id0
         ∧ SyncState.local_hash s = SyncState.local_hash s0
         ∧ SyncState.remote_hash s = SyncState.remote_hash s0)
    ∧ Store.projects store' !! pid
      = Some (Project.mk (Project.name p) (Project.owner_id p) true
                (Some at2) (Project.sync_version p)).
Proof.
  intros Hcfg Hfresh Hone Hp Hw.
  destruct (sync_projects_one_row settings current_user data env store
              Hcfg Hfresh Hone) as (resp & store' & Hret & Hone' & _ & Hall).
  destruct (Hall pid p Hp Hw) as (id & at_ & at2 & Hsel & Hid & Hp').
  eexists resp, store', id, _, at_, at2.
  split; [done|]. split; [done|]. split; [exact Hsel|].
  split; [done|]. split; [done|]. split; [done|].
  split; [by rewrite base_version_mark_synced, base_of_spec|].
  split; [done|]. split; [|done].
  intros id0 s0 Hsel0. split; [by eapply Hid|]. by rewrite Hsel0.
Qed.

(** The store a bulk sync leaves: the one it found, or the one the
    loop built, with at most one new audit entry. *)
Lemma sync_projects_store settings current_user data env store :
  snd (sync_projects settings current_user data env store) = store
  ∨ ∃ st audit_logs,
      sync_loop current_user env
        (select_projects current_user data (Store.projects store))
        (SyncLoop.mk store 0 [] 0 0) = inr st
      ∧ snd (sync_projects settings current_user data env store)
        = Store.mk (Store.sync (SyncLoop.store st))
            (Store.projects (SyncLoop.store st)) audit_logs
      ∧ (audit_logs = Store.audit_logs store
         ∨ ∃ id a, Store.audit_logs store !! id = None
                   ∧ audit_logs = <[id := a]> (Store.audit_logs store)).
Proof.
  unfold sync_projects.
  destruct (negb (truthy _)); [by left|]. cbn zeta.
  destruct (sync_loop _ _ _ _) as [?|st] eqn:Hloop; [by left|].
  destruct (sync_loop_inr _ _ _ _ _ Hloop) as (_ & _ & Hlogs & _).
  cbn [SyncLoop.store] in Hlogs. rewrite Hlogs. unfold _log_action.
  destruct (AUDIT_LOG_ENABLED settings); cbn [negb].
  - case_bool_decide as Hid; [by left|]. right. eexists st, _.
    split; [done|]. split; [done|]. right. eexists _, _. split; [|done].
    destruct (Store.audit_logs store !! _) eqn:E; [|done].
    destruct Hid. by eexists.
  - right. eexists st, _. split; [done|]. split; [done|]. by left.
Qed.

(** ** What a bulk sync leaves alone *)

(** X18. Whatever its outcome, a bulk sync touches no SyncConflict row,
    removes no SyncState row and never writes a row's [base_version],
    hashes or entity; rows of other users, of other entity types and of
    projects it did not select are unchanged, and so are the projects it
    did not select; a selected project keeps its name, owner and
    [sync_version], and no audit entry is removed or rewritten. *)
Theorem sync_projects_frame settings current_user data env store :
  let store' := snd (sync_projects settings current_user data env store) in
  let selected pid :=
    ∃ p, Store.projects store !! pid = Some p
         ∧ where_project current_user data (pid, p) = true in
  sync_conflicts (Store.sync store') = sync_conflicts (Store.sync store)
  ∧ (∀ id s, sync_states (Store.sync store) !! id = Some s →
       ∃ s', sync_states (Store.sync store') !! id = Some s'
             ∧ same_entity s' s
             ∧ SyncState.base_version s' = SyncState.base_version s
             ∧ SyncState.local_hash s' = SyncState.local_hash s
             ∧ SyncState.remote_hash s' = SyncState.remote_hash s
             ∧ (¬ (SyncState.user_id s = User.id current_user
                   ∧ SyncState.entity_type s = "project"
                   ∧ selected (SyncState.entity_id s)) → s' = s))
  ∧ (∀ pid p, Store.projects store !! pid = Some p →
       ∃ p', Store.projects store' !! pid = Some p'
             ∧ Project.name p' = Project.name p
             ∧ Project.owner_id p' = Project.owner_id p
             ∧ Project.sync_version p' = Project.sync_version p
             ∧ (¬ selected pid → p' = p))
  ∧ (∀ pid, Store.projects store !! pid = None →
       Store.projects store' !! pid = None)
  ∧ (∀ id a, Store.audit_logs store !! id = Some a →
       Store.audit_logs store' !! id = Some a).
Proof.
  intros store' selected.
  destruct (sync_projects_store settings current_user data env store)
    as [Heq|(st & logs & Hloop & Heq & Hlogs)]; fold store' in Heq;
    rewrite Heq.
  { split; [done|]. split; [|split; [|done]].
    - intros id s Hs. exists s. by repeat split.
    - intros pid p Hp. exists p. by repeat split. }
  destruct (sync_loop_inr _ _ _ _ _ Hloop)
    as (_ & Hconf & _ & _ & Hrows & Hprojs).
  cbn zeta in Hrows. cbn [Store.sync Store.projects Store.audit_logs
    SyncLoop.store] in *.
  split; [done|]. split; [|split; [|split]].
  - intros id s Hs.
    destruct (Hrows id)
      as [Hid|(pid & p & at_ & s0 & Hin & Hs' & Hw & Hprev)].
    { exists s. rewrite Hid. by repeat split. }
    destruct Hprev as [Hprev|[Hprev _]]; [|congruence].
    rewrite Hs in Hprev. injection Hprev as <-.
    eexists. split; [exact Hs'|]. split; [done|].
    split; [done|]. split; [done|]. split; [done|].
    intros Hnot. destruct Hnot.
    apply where_entity_spec in Hw as (Hu & Ht & He).
    split; [done|]. split; [done|]. exists p. rewrite He.
    by apply select_projects_elem.
  - intros pid p Hp. destruct (Hprojs pid) as [Hid|(p0 & at_ & Hin & Hp')].
    { exists p. rewrite Hid. by repeat split. }
    apply select_projects_elem in Hin as [Hp0 Hw].
    rewrite Hp in Hp0. injection Hp0 as <-.
    eexists. split; [exact Hp'|]. split; [done|]. split; [done|].
    split; [done|]. intros Hnot. destruct Hnot. by exists p.
  - intros pid Hnone. destruct (Hprojs pid) as [->|(p0 & at_ & Hin & _)];
      [done|].
    apply select_projects_elem in Hin as [Hp0 _]. congruence.
  - intros id a Ha. destruct Hlogs as [->|(id' & a' & Hnone & ->)]; [done|].
    rewrite lookup_insert_ne; [done|]. congruence.
Qed.

(** ** A push after a bulk sync *)


(** The example store meets the conditions of the theorems. *)
Lemma Scenario3_fresh : fresh_uuids Scenario3.env Scenario3.store.
Proof.
  split; [|split].
  - intros i j H. cbn in H. injection H as H. cbn in H.
    by apply pretty.pretty_nat_inj.
  - intros i. apply lookup_singleton_ne. cbn. discriminate.
  - intros i. apply lookup_empty.
Qed.

Lemma db_synced_one_row : one_row_per_entity Scenario.db_synced.
Proof.
  intros id1 id2 s1 s2 H1 H2 _. cbn in H1, H2.
  apply lookup_singleton_Some in H1 as [<- _].
  by apply lookup_singleton_Some in H2 as [<- _].
Qed.

Lemma sync_projects_response_witness :
  ∃ resp store',
    sync_projects Scenario3.settings Scenario3.alice Scenario3.request
      Scenario3.env Scenario3.store = (Return resp, store')
    ∧ (SyncResponse.pushed resp
       + Z.of_nat (length (SyncResponse.errors resp))
       = Z.of_nat (length (select_projects Scenario3.alice Scenario3.request
                             (Store.projects Scenario3.store))))%Z
    ∧ SyncResponse.pulled resp = 0%Z
    ∧ SyncResponse.conflicts resp = 0%Z
    ∧ (SyncResponse.success resp = true ↔ SyncResponse.errors resp = [])
    ∧ (one_row_per_entity (Store.sync Scenario3.store) →
       SyncResponse.errors resp = [])
    ∧ ∃ id,
        Store.audit_logs Scenario3.store !! id = None
        ∧ Store.audit_logs store'
          = if AUDIT_LOG_ENABLED Scenario3.settings
            then <[id := AuditLog.new (User.id Scenario3.alice)
                           (User.email Scenario3.alice) "sync.complete"
                           "sync"
                           (pretty.pretty (SyncResponse.pushed resp)
                            ++ " pushed, 0 pulled")]>
                   (Store.audit_logs Scenario3.store)
            else Store.audit_logs Scenario3.store.
Proof.
  apply (sync_projects_response Scenario3.settings Scenario3.alice
           Scenario3.request Scenario3.env Scenario3.store).
  - vm_compute; reflexivity.
  - exact Scenario3_fresh.
Defined.

Lemma sync_projects_marks_synced_witness :
  ∃ resp store' id s at_ at2,
    sync_projects Scenario3.settings Scenario3.alice Scenario3.request
      Scenario3.env Scenario3.store = (Return resp, store')
    ∧ one_row_per_entity (Store.sync store')
    ∧ select_sync_state (User.id Scenario3.alice) "project" "proj-1"
        (Store.sync store') = [(id, s)]
    ∧ SyncState.status s = SyncStatus.SYNCED
    ∧ SyncState.local_version s = 8%Z
    ∧ SyncState.remote_version s = 8%Z
    ∧ SyncState.base_version s
      = base_of (User.id Scenario3.alice) "project" "proj-1"
          (Store.sync Scenario3.store)
    ∧ SyncState.last_sync_at s = Some at_
    ∧ (∀ id0 s0,
         select_sync_state (User.id Scenario3.alice) "project" "proj-1"
           (Store.sync Scenario3.store) = [(id0, s0)] →
         id = id0
         ∧ SyncState.local_hash s = SyncState.local_hash s0
         ∧ SyncState.remote_hash s = SyncState.remote_hash s0)
    ∧ Store.projects store' !! "proj-1"
      = Some (Project.mk "api" Scenario.alice true (Some at2) 8).
Proof.
  apply (sync_projects_marks_synced Scenario3.settings Scenario3.alice
           Scenario3.request Scenario3.env Scenario3.store "proj-1"
           (Project.mk "api" Scenario.alice true (Some 50%Z) 8)).
  - vm_compute; reflexivity.
  - exact Scenario3_fresh.
  - exact db_synced_one_row.
  - vm_compute; reflexivity.
  - vm_compute; reflexivity.
Defined.


(** * Further properties of the crypto helpers *)

Section MoreCrypto.
Context {lib : CryptoLib}.

Lemma bind_inr {A B} (a : A) (k : A → raises B) : inr a ≫= k = k a.
Proof. done. Qed.

Lemma b64_text_roundtrip bs :
  ∃ text, ascii_decode (b64encode bs) = inr text ∧ b64decode text = inr bs.
Proof.
  exists (Byte.to_N <$> b64encode bs). split.
  - apply ascii_decode_ascii, b64encode_ascii.
  - apply b64decode_b64encode.
Qed.

(** Four characters for every three bytes, the last group padded. *)
Lemma b64encode_length bs :
  length (b64encode bs) = (4 * ((length bs + 2) / 3))%nat.
Proof.
  induction bs as [|a|a b|a b c bs IH] using bytes_ind3; [done..|].
  cbn [b64encode length]. rewrite IH.
  replace (S (S (S (length bs))) + 2)%nat with (1 * 3 + (length bs + 2))%nat
    by lia.
  rewrite Nat.div_add_l by done. lia.
Qed.

Lemma init_inr password salt rng self :
  CryptoHelper.init password salt rng = inr self →
  CryptoHelper.salt self ≠ []
  ∧ CryptoHelper.salt self
    = match salt with
      | Some (b :: bs) => b :: bs
      | _ => token_bytes 16 rng
      end
  ∧ CryptoHelper._derive_key password (CryptoHelper.salt self)
    = inr (CryptoHelper.key self).
Proof.
  unfold CryptoHelper.init.
  set (salt' := match salt with
                | Some (b :: bs) => b :: bs
                | _ => token_bytes 16 rng
                end).
  assert (Hne : salt' ≠ []) by (by destruct salt as [[|??]|]).
  destruct (CryptoHelper._derive_key password salt') as [?|k] eqn:Hk;
    [done|].
  simpl. intros [= <-]. done.
Qed.

(** X11. A helper rebuilt from its exported salt and the same password is the
    same helper, salt and key, whatever entropy is at hand: the salt of
    a constructed helper is never empty, so none is drawn. *)
Theorem from_salt_b64_get_salt_b64 password salt rng self rng' :
  CryptoHelper.init password salt rng = inr self →
  ∃ salt_b64,
    Cli.get_salt_b64 self = inr salt_b64
    ∧ b64decode salt_b64 = inr (CryptoHelper.salt self)
    ∧ Cli.from_salt_b64 password salt_b64 rng' = inr self.
Proof.
  intros (Hne & _ & Hkey)%init_inr.
  destruct (b64_text_roundtrip (CryptoHelper.salt self))
    as (text & Htext & Hdec).
  exists text. split; [done|]. split; [done|].
  unfold Cli.from_salt_b64, CryptoHelper.init. rewrite Hdec. simpl.
  destruct self as [[|b bs] key]; [done|]. simpl in *. by rewrite Hkey.
Qed.

(** X12. A generated salt is 24 characters of base64 text for the 16 bytes
    drawn, and building a helper from it is building one with exactly
    these bytes as its salt. *)
Theorem generate_salt_from_salt_b64 password rng rng' :
  ∃ salt_b64,
    Cli.generate_salt rng = inr salt_b64
    ∧ length salt_b64 = 24%nat
    ∧ b64decode salt_b64 = inr (token_bytes 16 rng)
    ∧ Cli.from_salt_b64 password salt_b64 rng'
      = CryptoHelper.init password (Some (token_bytes 16 rng)) rng'
    ∧ ∀ self, Cli.from_salt_b64 password salt_b64 rng' = inr self →
        CryptoHelper.salt self = token_bytes 16 rng.
Proof.
  exists (Byte.to_N <$> b64encode (token_bytes 16 rng)).
  split; [apply ascii_decode_ascii, b64encode_ascii|].
  split; [by rewrite length_fmap, b64encode_length, token_bytes_length|].
  split; [apply b64decode_b64encode|].
  unfold Cli.from_salt_b64. rewrite b64decode_b64encode, bind_inr.
  split; [done|].
  intros self (_ & Hsalt & _)%init_inr. rewrite Hsalt.
  by destruct (token_bytes 16 rng) eqn:E.
Qed.

(** X13. [verify_password] accepts the password whose hash it is given, and
    in general answers whether the candidate derives the stored key
    under the stored salt; a stored hash is 64 characters when the
    derived key has 32 bytes. *)
Theorem verify_password_hash_password password rng pw candidate pw' :
  utf8_encode password = inr pw →
  utf8_encode candidate = inr pw' →
  let salt := token_bytes 16 rng in
  ∃ stored_hash,
    Cli.hash_password password rng = inr stored_hash
    ∧ b64decode stored_hash
      = inr (salt ++ pbkdf2_hmac "sha256" pw salt 100000 32)
    ∧ Cli.verify_password password stored_hash = inr true
    ∧ Cli.verify_password candidate stored_hash
      = inr (bool_decide (pbkdf2_hmac "sha256" pw' salt 100000 32
                          = pbkdf2_hmac "sha256" pw salt 100000 32))
    ∧ (length (pbkdf2_hmac "sha256" pw salt 100000 32) = 32%nat →
       length stored_hash = 64%nat).
Proof.
  intros Hpw Hpw' salt.
  set (key := pbkdf2_hmac "sha256" pw salt 100000 32).
  exists (Byte.to_N <$> b64encode (salt ++ key)).
  assert (Hlen : length salt = 16%nat) by apply token_bytes_length.
  assert (Hverify : ∀ c pwc, utf8_encode c = inr pwc →
            Cli.verify_password c (Byte.to_N <$> b64encode (salt ++ key))
            = inr (bool_decide (pbkdf2_hmac "sha256" pwc salt 100000 32
                                = key))).
  { clearbody salt. intros c pwc Hc. unfold Cli.verify_password.
    rewrite b64decode_b64encode. simpl.
    rewrite <- Hlen, take_app_length, drop_app_length, Hc. done. }
  split_and!.
  - unfold Cli.hash_password. rewrite Hpw, bind_inr.
    apply ascii_decode_ascii, b64encode_ascii.
  - apply b64decode_b64encode.
  - rewrite (Hverify password pw Hpw). by rewrite bool_decide_eq_true_2.
  - by apply Hverify.
  - intros Hkey. rewrite length_fmap, b64encode_length, length_app.
    fold key in Hkey. by rewrite Hlen, Hkey.
Qed.


(** X15. What the CLI helper sends as a pair (encrypted value, nonce) and
    what the server-side routine packs into one string are the same
    bytes: with the same key and the same draw the string decodes to
    the nonce followed by the ciphertext, and the two decryption
    routines give the same answer on them. *)
Theorem cli_pair_is_server_string self plaintext rng ev n :
  CryptoHelper.encrypt self plaintext rng = inr (ev, n) →
  ∃ ciphertext encrypted,
    b64decode n = inr (token_bytes 12 rng)
    ∧ b64decode ev = inr ciphertext
    ∧ Security.encrypt_string plaintext (CryptoHelper.key self) rng
      = inr encrypted
    ∧ b64decode encrypted = inr (token_bytes 12 rng ++ ciphertext)
    ∧ Security.decrypt_string encrypted (CryptoHelper.key self)
      = CryptoHelper.decrypt self ev n.
Proof.
  unfold CryptoHelper.encrypt, Security.encrypt_string,
    Security.encrypt_data.
  pose proof (token_bytes_length 12 rng) as Hlen.
  generalize dependent (token_bytes 12 rng). intros nonce Hlen.
  destruct (AESGCM (CryptoHelper.key self)) as [?|aesgcm] eqn:Hnew; [done|].
  rewrite bind_inr.
  destruct (utf8_encode plaintext) as [?|data]; [done|].
  rewrite !bind_inr.
  destruct (AESGCM_encrypt aesgcm nonce data) as [?|ct]; [done|].
  rewrite !bind_inr.
  rewrite !ascii_decode_ascii by apply b64encode_ascii.
  rewrite !bind_inr. intros [= <- <-].
  exists ct, (Byte.to_N <$> b64encode (nonce ++ ct)).
  rewrite !b64decode_b64encode.
  rewrite utf8_decode_ascii by apply b64encode_ascii.
  split_and!; try done.
  unfold Security.decrypt_string, Security.decrypt_data,
    CryptoHelper.decrypt.
  rewrite !b64decode_b64encode, !bind_inr. cbn zeta.
  by rewrite <- Hlen, take_app_length, drop_app_length, Hnew.
Qed.

End MoreCrypto.

Lemma verify_password_hash_password_witness :
  let salt := token_bytes 16 Standin.counter in
  ∃ stored_hash,
    Cli.hash_password (lib := Standin.lib) Standin.password Standin.counter
    = inr stored_hash
    ∧ b64decode stored_hash
      = inr (salt ++ pbkdf2_hmac (CryptoLib := Standin.lib) "sha256"
                       [Byte.x70; Byte.xc3; Byte.xa4; Byte.x73; Byte.x73]
                       salt 100000 32)
    ∧ Cli.verify_password (lib := Standin.lib) Standin.password stored_hash
      = inr true
    ∧ Cli.verify_password (lib := Standin.lib) Standin.plaintext stored_hash
      = inr (bool_decide
               (pbkdf2_hmac (CryptoLib := Standin.lib) "sha256"
                  [Byte.x68; Byte.xc3; Byte.xa9; Byte.xe2; Byte.x82;
                   Byte.xac; Byte.xf0; Byte.x9f; Byte.x98; Byte.x80]
                  salt 100000 32
                = pbkdf2_hmac (CryptoLib := Standin.lib) "sha256"
                    [Byte.x70; Byte.xc3; Byte.xa4; Byte.x73; Byte.x73]
                    salt 100000 32))
    ∧ (length (pbkdf2_hmac (CryptoLib := Standin.lib) "sha256"
                 [Byte.x70; Byte.xc3; Byte.xa4; Byte.x73; Byte.x73]
                 salt 100000 32) = 32%nat →
       length stored_hash = 64%nat).
Proof.
  apply (verify_password_hash_password (lib := Standin.lib)
           Standin.password Standin.counter _ Standin.plaintext _);
    vm_compute; reflexivity.
Defined.

Lemma from_salt_b64_get_salt_b64_witness :
  ∃ self salt_b64,
    CryptoHelper.init (lib := Standin.lib) Standin.password None
      Standin.counter = inr self
    ∧ Cli.get_salt_b64 self = inr salt_b64
    ∧ b64decode salt_b64 = inr (CryptoHelper.salt self)
    ∧ Cli.from_salt_b64 (lib := Standin.lib) Standin.password salt_b64
        (after_draw 16 Standin.counter) = inr self.
Proof.
  eexists.
  assert (H : CryptoHelper.init (lib := Standin.lib) Standin.password None
                Standin.counter = inr _) by (vm_compute; reflexivity).
  destruct (from_salt_b64_get_salt_b64 (lib := Standin.lib) _ _ _ _
              (after_draw 16 Standin.counter) H) as (s & H1 & H2 & H3).
  exists s. exact (conj H (conj H1 (conj H2 H3))).
Defined.


Lemma cli_pair_is_server_string_witness :
  ∃ self ev n,
    CryptoHelper.init (lib := Standin.lib) Standin.password
      (Some Standin.salt) Standin.counter = inr self
    ∧ CryptoHelper.encrypt (lib := Standin.lib) self Standin.plaintext
        Standin.counter
      = inr (ev, n)
    ∧ ∃ ciphertext encrypted,
        b64decode n = inr (token_bytes 12 Standin.counter)
        ∧ b64decode ev = inr ciphertext
        ∧ Security.encrypt_string (lib := Standin.lib) Standin.plaintext
            (CryptoHelper.key self) Standin.counter = inr encrypted
        ∧ b64decode encrypted
          = inr (token_bytes 12 Standin.counter ++ ciphertext)
        ∧ Security.decrypt_string (lib := Standin.lib) encrypted
            (CryptoHelper.key self)
          = CryptoHelper.decrypt (lib := Standin.lib) self ev n.
Proof.
  eexists _, _, _. split; [vm_compute; reflexivity|].
  assert (H : CryptoHelper.encrypt (lib := Standin.lib)
                (CryptoHelper.mk Standin.salt
                   (pbkdf2_hmac (CryptoLib := Standin.lib) "sha256"
                      [Byte.x70; Byte.xc3; Byte.xa4; Byte.x73; Byte.x73]
                      Standin.salt 100000 32))
                Standin.plaintext Standin.counter = inr (_, _))
    by (vm_compute; reflexivity).
  split; [exact H|].
  exact (cli_pair_is_server_string (lib := Standin.lib) _ _ _ _ _ H).
Defined.

(** * The [.env] format of the command line *)

Section EnvFormat.
Import Main.

(** ** [strip] *)

Lemma lstrip_elem_of s x : x ∈ lstrip s → x ∈ s.
Proof.
  induction s as [|c s IH]; [done|]. cbn [lstrip].
  destruct (isspace c); [|done]. intros ?%IH. by apply list_elem_of_further.
Qed.

Lemma rstrip_elem_of s x : x ∈ rstrip s → x ∈ s.
Proof.
  unfold rstrip. rewrite elem_of_reverse. intros ?%lstrip_elem_of.
  by apply elem_of_reverse.
Qed.

Lemma strip_elem_of s x : x ∈ strip s → x ∈ s.
Proof. by intros ?%rstrip_elem_of%lstrip_elem_of. Qed.

(** What is left of [lstrip] does not begin with a space. *)
Lemma lstrip_head s :
  match lstrip s with
  | c :: _ => isspace c = false
  | [] => True
  end.
Proof.
  induction s as [|c s IH]; [done|]. cbn [lstrip].
  by destruct (isspace c) eqn:Hc.
Qed.

Lemma lstrip_id c s : isspace c = false → lstrip (c :: s) = c :: s.
Proof. intros Hc. cbn [lstrip]. by rewrite Hc. Qed.

Lemma lstrip_snoc s c :
  isspace c = false → lstrip (s ++ [c]) = lstrip s ++ [c].
Proof.
  intros Hc. induction s as [|x s IH]; cbn [lstrip app].
  - by rewrite Hc.
  - by destruct (isspace x).
Qed.

(** [rstrip] leaves a first character that is not a space in place. *)
Lemma rstrip_cons c s :
  isspace c = false → rstrip (c :: s) = c :: rstrip s.
Proof.
  intros Hc. unfold rstrip.
  by rewrite reverse_cons, lstrip_snoc, reverse_app by done.
Qed.

Lemma strip_cons c s :
  isspace c = false → strip (c :: s) = c :: rstrip s.
Proof. intros Hc. unfold strip. by rewrite lstrip_id, rstrip_cons. Qed.

Lemma strip_trimmed s : trimmed s = true → strip s = s.
Proof.
  unfold trimmed, strip, rstrip. intros [Hhd Htl]%andb_true_iff.
  assert (Hl : lstrip s = s).
  { destruct s as [|c s]; [done|]. apply lstrip_id. by destruct (isspace c). }
  rewrite Hl.
  assert (Hr : lstrip (reverse s) = reverse s).
  { destruct (reverse s) as [|c r]; [done|].
    apply lstrip_id. by destruct (isspace c). }
  by rewrite Hr, reverse_involutive.
Qed.

Lemma trimmed_strip s : trimmed (strip s) = true.
Proof.
  unfold trimmed. apply andb_true_iff. split.
  - unfold strip. pose proof (lstrip_head s) as Hhd.
    destruct (lstrip s) as [|c r]; [done|].
    rewrite rstrip_cons by done. by rewrite Hhd.
  - unfold strip, rstrip. rewrite reverse_involutive.
    pose proof (lstrip_head (reverse (lstrip s))) as Hhd.
    destruct (lstrip (reverse (lstrip s))) as [|c r]; [done|].
    by rewrite Hhd.
Qed.

(** ** [split], [join] and [split(sep, 1)] *)

Lemma split_not_nil sep s : split sep s ≠ [].
Proof.
  destruct s as [|c s]; [done|]. cbn [split].
  destruct (c =? sep)%N; [done|]. by destruct (split sep s).
Qed.

Lemma split_no_sep sep s : sep ∉ s → split sep s = [s].
Proof.
  induction s as [|c s IH]; [done|].
  intros [Hc Hs]%not_elem_of_cons. cbn [split].
  rewrite (proj2 (N.eqb_neq c sep)) by done. by rewrite IH.
Qed.

Lemma split_app sep l rest :
  sep ∉ l → split sep (l ++ sep :: rest) = l :: split sep rest.
Proof.
  induction l as [|c l IH]; intros Hl; cbn [split app].
  - by rewrite N.eqb_refl.
  - apply not_elem_of_cons in Hl as [Hc Hl].
    rewrite (proj2 (N.eqb_neq c sep)) by done. by rewrite IH.
Qed.

(** The pieces of a split do not hold the separator. *)
Lemma split_pieces sep s piece : piece ∈ split sep s → sep ∉ piece.
Proof.
  revert piece. induction s as [|c s IH]; intros piece; cbn [split].
  - intros ->%list_elem_of_singleton. apply not_elem_of_nil.
  - destruct (c =? sep)%N eqn:Hc.
    + intros [->|Hin]%elem_of_cons; [apply not_elem_of_nil|by apply IH].
    + apply N.eqb_neq in Hc.
      destruct (split sep s) as [|p ps]; cbn.
      * intros ->%list_elem_of_singleton.
        apply not_elem_of_cons. split; [done|apply not_elem_of_nil].
      * intros [->|Hin]%elem_of_cons.
        -- apply not_elem_of_cons. split; [done|].
           apply IH, list_elem_of_here.
        -- by apply IH, list_elem_of_further.
Qed.

(** The pieces of a split are made of characters of the text. *)
Lemma split_elem_of sep s piece x : piece ∈ split sep s → x ∈ piece → x ∈ s.
Proof.
  revert piece. induction s as [|c s IH]; intros piece; cbn [split].
  - by intros ->%list_elem_of_singleton.
  - destruct (c =? sep)%N.
    + intros [->|Hin]%elem_of_cons; [by intros ?%elem_of_nil|].
      intros Hx. apply list_elem_of_further. by apply (IH piece).
    + destruct (split sep s) as [|p ps]; cbn.
      * intros ->%list_elem_of_singleton ->%list_elem_of_singleton.
        apply list_elem_of_here.
      * intros [->|Hin]%elem_of_cons.
        -- intros [->|Hx]%elem_of_cons; [apply list_elem_of_here|].
           apply list_elem_of_further, (IH p); [apply list_elem_of_here|done].
        -- intros Hx. apply list_elem_of_further, (IH piece); [|done].
           by apply list_elem_of_further.
Qed.

Lemma join_cons sep line line' lines :
  join sep (line :: line' :: lines) = line ++ sep :: join sep (line' :: lines).
Proof. done. Qed.

Lemma split_join sep lines :
  lines ≠ [] → Forall (λ line, sep ∉ line) lines →
  split sep (join sep lines) = lines.
Proof.
  intros Hne Hall. induction Hall as [|line lines Hline Hall IH]; [done|].
  destruct lines as [|line' lines].
  - by apply split_no_sep.
  - rewrite join_cons, split_app by done. by rewrite IH.
Qed.

Lemma split_once_app sep before after :
  sep ∉ before →
  split_once sep (before ++ sep :: after) = Some (before, after).
Proof.
  induction before as [|c l IH]; intros Hl; cbn [split_once app].
  - by rewrite N.eqb_refl.
  - apply not_elem_of_cons in Hl as [Hc Hl].
    rewrite (proj2 (N.eqb_neq c sep)) by done. by rewrite IH.
Qed.

Lemma split_once_Some sep s before after :
  split_once sep s = Some (before, after) →
  s = before ++ sep :: after ∧ sep ∉ before.
Proof.
  revert before. induction s as [|c s IH]; intros before; [done|].
  cbn [split_once]. destruct (c =? sep)%N eqn:Hc.
  - apply N.eqb_eq in Hc as ->. intros [= <- <-].
    split; [done|apply not_elem_of_nil].
  - apply N.eqb_neq in Hc.
    destruct (split_once sep s) as [[b a]|]; [|done].
    intros [= <- <-]. destruct (IH b eq_refl) as [-> Hb].
    split; [done|]. by apply not_elem_of_cons.
Qed.

(** ** Text without spaces at its ends *)

Lemma trimmed_app a b :
  trimmed a = true → trimmed b = true → trimmed (a ++ b) = true.
Proof.
  destruct a as [|c a]; [done|]. intros Ha Hb.
  destruct (reverse b) as [|d rb] eqn:Hrb.
  { apply (f_equal reverse) in Hrb. rewrite reverse_involutive in Hrb.
    subst b. by rewrite app_nil_r. }
  unfold trimmed in *. rewrite reverse_app, Hrb. rewrite Hrb in Hb.
  apply andb_true_iff in Ha as [Ha _]. apply andb_true_iff in Hb as [_ Hb].
  apply andb_true_iff. by split.
Qed.

Lemma trimmed_around a m b :
  a ≠ [] → b ≠ [] → trimmed a = true → trimmed b = true →
  trimmed (a ++ m ++ b) = true.
Proof.
  destruct a as [|c a]; [done|]. intros _ Hne Ha Hb.
  destruct (reverse b) as [|d rb] eqn:Hrb.
  { apply (f_equal reverse) in Hrb. rewrite reverse_involutive in Hrb.
    by subst b. }
  unfold trimmed in *. rewrite !reverse_app, Hrb. rewrite Hrb in Hb.
  apply andb_true_iff in Ha as [Ha _]. apply andb_true_iff in Hb as [_ Hb].
  apply andb_true_iff. by split.
Qed.

Lemma join_not_nil sep line lines : line ≠ [] → join sep (line :: lines) ≠ [].
Proof.
  intros Hne. destruct lines as [|line' lines]; [done|].
  rewrite join_cons. by destruct line.
Qed.

Lemma trimmed_join lines :
  Forall (λ line, line ≠ [] ∧ trimmed line = true) lines →
  trimmed (join LF lines) = true.
Proof.
  induction 1 as [|line lines [Hne Hline] Hall IH]; [done|].
  destruct lines as [|line' lines]; [done|].
  rewrite join_cons.
  apply (trimmed_around line [LF] (join LF (line' :: lines))); try done.
  apply join_not_nil. by apply Forall_cons_1 in Hall as [[? _] _].
Qed.

(** ** One line *)

Lemma remove_quotes_plain v : plain_value v = true → remove_quotes v = v.
Proof.
  unfold plain_value, remove_quotes.
  intros [[_ Hd%negb_true_iff]%andb_true_iff Hs%negb_true_iff]%andb_true_iff.
  by rewrite Hd, Hs.
Qed.

Lemma remove_quotes_elem_of v x : x ∈ remove_quotes v → x ∈ v.
Proof.
  unfold remove_quotes.
  assert (H : x ∈ drop 1 (take (length v - 1) v) → x ∈ v).
  { intros ?%subseteq_drop. by eapply subseteq_take. }
  by repeat case_match.
Qed.

(** A line [key=value] with a plain key and a plain value is read as
    that key and that value. *)
Lemma parse_line_plain k v :
  plain_key k = true → plain_value v = true →
  parse_line (k ++ EQUALS :: v) = Some (k, v).
Proof.
  intros Hk Hv. pose proof Hk as Hk'. pose proof Hv as Hv'.
  unfold plain_key in Hk'. unfold plain_value in Hv'.
  apply andb_true_iff in Hk' as [[[Hkt Hkh]%andb_true_iff Hke]%andb_true_iff _].
  apply andb_true_iff in Hv' as [[[Hvt _]%andb_true_iff _]%andb_true_iff _].
  apply bool_decide_eq_true in Hke. apply negb_true_iff in Hkh.
  assert (Hline : trimmed (k ++ EQUALS :: v) = true).
  { apply trimmed_app; [done|]. by apply (trimmed_app [EQUALS] v). }
  unfold parse_line. cbn zeta. rewrite (strip_trimmed _ Hline).
  rewrite bool_decide_eq_false_2 by (by destruct k).
  assert (Hhash : startswith HASH (k ++ EQUALS :: v) = false).
  { by destruct k. }
  rewrite Hhash. cbn [orb]. rewrite split_once_app by done.
  by rewrite !strip_trimmed, remove_quotes_plain.
Qed.

(** A line that begins with [#] gives no variable. *)
Lemma parse_line_comment rest : parse_line (HASH :: rest) = None.
Proof.
  unfold parse_line. cbn zeta. rewrite strip_cons by done.
  rewrite bool_decide_eq_false_2 by done. done.
Qed.

(** What a line gives: a plain key, and a key and a value made of
    characters of the line. *)
Lemma parse_line_Some line k v :
  parse_line line = Some (k, v) →
  trimmed k = true ∧ startswith HASH k = false ∧ (EQUALS ∉ k)
  ∧ (∀ x, x ∈ k → x ∈ line) ∧ (∀ x, x ∈ v → x ∈ line).
Proof.
  unfold parse_line. cbn zeta.
  pose proof (trimmed_strip line) as Ht.
  assert (Hsub : ∀ x, x ∈ strip line → x ∈ line) by apply strip_elem_of.
  destruct (strip line) as [|c l] eqn:Hl; [done|].
  rewrite bool_decide_eq_false_2 by done. cbn [orb].
  destruct (startswith HASH (c :: l)) eqn:Hhash; [done|].
  destruct (split_once EQUALS (c :: l)) as [[k0 v0]|] eqn:Hsplit; [|done].
  intros [= <- <-]. apply split_once_Some in Hsplit as [Heq Hno].
  split; [apply trimmed_strip|]. split; [|split; [|split]].
  - destruct k0 as [|c0 k0]; [done|].
    cbn [app] in Heq. injection Heq as <- _.
    rewrite strip_cons; [done|].
    unfold trimmed in Ht. apply andb_true_iff in Ht as [Ht _].
    by apply negb_true_iff in Ht.
  - by intros ?%strip_elem_of.
  - intros x Hx%strip_elem_of. apply Hsub. rewrite Heq.
    apply elem_of_app. by left.
  - intros x Hx%remove_quotes_elem_of%strip_elem_of. apply Hsub.
    rewrite Heq. apply elem_of_app. right. by apply list_elem_of_further.
Qed.

(** [diff] reads from a line the key that [push] reads from it. *)
Lemma diff_line_parse_line line : diff_line line = fst <$> parse_line line.
Proof.
  unfold diff_line, parse_line. cbn zeta.
  destruct (_ || _); [done|].
  by destruct (split_once EQUALS (strip line)) as [[? ?]|].
Qed.

(** ** The variables of a file *)

Lemma parse_env_elem content k v :
  (k, v) ∈ parse_env content →
  plain_key k = true ∧ (LF ∉ v)
  ∧ (∀ x, x ∈ k → x ∈ content) ∧ (∀ x, x ∈ v → x ∈ content).
Proof.
  unfold parse_env. intros (line & Hline & Hparse)%list_elem_of_omap.
  pose proof (split_pieces _ _ _ Hline) as Hlf.
  assert (Hsub : ∀ x, x ∈ line → x ∈ content).
  { intros x Hx. by eapply strip_elem_of, split_elem_of. }
  apply parse_line_Some in Hparse as (Ht & Hh & He & Hk & Hv).
  split; [|split; [|split]].
  - unfold plain_key. rewrite Ht, Hh. cbn [andb negb].
    rewrite !bool_decide_eq_true_2; [done| |done].
    intros ?%Hk. done.
  - intros ?%Hv. done.
  - intros x ?%Hk. by apply Hsub.
  - intros x ?%Hv. by apply Hsub.
Qed.

Lemma omap_diff_line lines :
  omap diff_line lines = (omap parse_line lines).*1.
Proof.
  induction lines as [|line lines IH]; [done|]. cbn [omap list_omap].
  rewrite diff_line_parse_line.
  destruct (parse_line line) as [[k v]|]; cbn; by rewrite IH.
Qed.

(** The comment line that [pull] writes for a value it cannot
    decrypt. *)
Lemma failed_line k :
  LF ∉ k →
  let line := literal "# " ++ k ++ literal "=<decryption failed>" in
  line ≠ [] ∧ trimmed line = true ∧ (LF ∉ line) ∧ parse_line line = None.
Proof.
  intros Hk line.
  assert (Hline : line = [HASH] ++ (32%N :: k ++ literal "=<decryption failed")
                         ++ [62%N]).
  { unfold line. change (literal "# ") with [HASH; 32%N].
    change (literal "=<decryption failed>")
      with (literal "=<decryption failed" ++ [62%N]).
    cbn [app]. by rewrite <- !app_assoc. }
  split; [by rewrite Hline|]. split; [|split].
  - rewrite Hline. by apply trimmed_around.
  - unfold line. rewrite !not_elem_of_app. split; [|split; [done|]].
    + apply (proj1 (bool_decide_eq_true (LF ∉ literal "# "))).
      by vm_compute.
    + apply (proj1 (bool_decide_eq_true
                      (LF ∉ literal "=<decryption failed>"))).
      by vm_compute.
  - rewrite Hline. apply parse_line_comment.
Qed.
End EnvFormat.

Section EnvCrypto.
Import Main.
Context {lib : CryptoLib}.

(** A line [key=value] of plain parts. *)
Lemma plain_line k v :
  plain_key k = true → plain_value v = true →
  let line := k ++ EQUALS :: v in
  line ≠ [] ∧ trimmed line = true ∧ (LF ∉ line)
  ∧ parse_line line = Some (k, v).
Proof.
  intros Hk Hv line. pose proof (parse_line_plain k v Hk Hv) as Hparse.
  unfold plain_key in Hk. unfold plain_value in Hv.
  apply andb_true_iff in Hk as [[[Hkt _]%andb_true_iff _]%andb_true_iff Hkl].
  apply andb_true_iff in Hv as [[[Hvt Hvl]%andb_true_iff _]%andb_true_iff _].
  apply bool_decide_eq_true in Hkl, Hvl.
  split; [by destruct k|]. split; [|split; [|done]].
  - apply trimmed_app; [done|]. by apply (trimmed_app [EQUALS] v).
  - unfold line. rewrite not_elem_of_app, not_elem_of_cons. done.
Qed.

(** Each line that [pull] writes is one line of the format, and reads
    back as the variable it was written for, or as nothing when it is
    the comment of a failed decryption. *)
Lemma pull_line_ok crypto var :
  LF ∉ key var →
  (∀ value,
     CryptoHelper.decrypt crypto (encrypted_value var) (value_nonce var)
     = inr value →
     plain_key (key var) = true ∧ plain_value value = true) →
  let line := pull_line crypto var in
  line ≠ [] ∧ trimmed line = true ∧ (LF ∉ line)
  ∧ parse_line line = decrypted crypto var.
Proof.
  intros Hlf Hplain. unfold pull_line, decrypted.
  destruct (CryptoHelper.decrypt crypto _ _) as [e|value].
  - by apply failed_line.
  - destruct (Hplain value eq_refl). by apply plain_line.
Qed.

Lemma parse_env_pull_lines crypto variables :
  Forall (λ var,
            (LF ∉ key var)
            ∧ ∀ value,
                CryptoHelper.decrypt crypto (encrypted_value var)
                  (value_nonce var) = inr value →
                plain_key (key var) = true ∧ plain_value value = true)
    variables →
  parse_env (join LF (pull_line crypto <$> variables))
  = omap (decrypted crypto) variables.
Proof.
  intros Hall.
  destruct variables as [|var variables]; [done|].
  set (lines := pull_line crypto <$> var :: variables).
  assert (Hlines : Forall (λ line, line ≠ [] ∧ trimmed line = true
                                   ∧ (LF ∉ line)) lines).
  { unfold lines. apply Forall_fmap. eapply Forall_impl; [exact Hall|].
    intros v [Hlf Hplain]. cbn.
    by destruct (pull_line_ok crypto v Hlf Hplain) as (? & ? & ? & _). }
  unfold parse_env. rewrite strip_trimmed.
  2:{ apply trimmed_join. eapply Forall_impl; [exact Hlines|].
      by intros line (? & ? & _). }
  rewrite split_join.
  2:{ done. }
  2:{ eapply Forall_impl; [exact Hlines|]. by intros line (_ & _ & ?). }
  unfold lines. clear lines Hlines.
  induction Hall as [|v vs [Hlf Hplain] _ IH]; [done|].
  rewrite fmap_cons. cbn [omap list_omap].
  destruct (pull_line_ok crypto v Hlf Hplain) as (_ & _ & _ & ->).
  by rewrite IH.
Qed.

(** Text made of characters of well-formed text is well formed. *)
Lemma well_formed_text_sub s t :
  (∀ x, x ∈ t → x ∈ s) →
  well_formed_text s = true → well_formed_text t = true.
Proof.
  unfold well_formed_text. rewrite !forallb_forall. intros Hsub Hs x Hx.
  apply Hs. by apply list_elem_of_In, Hsub, list_elem_of_In.
Qed.

(** ** What [pull] writes, read again *)


Context {laws : CryptoLibLaws lib}.

(** The loop of [push] encrypts every value, and what it sends
    decrypts to the variables it was given. *)
Lemma encrypt_variables_decrypt crypto variables rng :
  length (CryptoHelper.key crypto) = 32%nat →
  Forall (λ kv, well_formed_text kv.2 = true) variables →
  ∃ encrypted_vars,
    encrypt_variables crypto variables rng = inr encrypted_vars
    ∧ Forall2 (λ kv var,
                 key var = kv.1
                 ∧ CryptoHelper.decrypt crypto (encrypted_value var)
                     (value_nonce var) = inr kv.2)
        variables encrypted_vars.
Proof.
  intros Hkey Hall. revert rng.
  induction Hall as [|[k v] vars Hv _ IH]; intros rng.
  { by exists []. }
  destruct (CryptoHelper_roundtrip crypto v rng Hkey Hv)
    as (ev & n & Henc & Hdec).
  destruct (IH (after_draw 12 rng)) as (evs & Hevs & Hall2).
  exists (mkVar k ev n :: evs). cbn [encrypt_variables snd fst].
  rewrite Henc, bind_inr, Hevs, bind_inr. split; [done|].
  by constructor.
Qed.

(** ** From [push] to [pull] *)

(** X21. For a file whose values are plain, what [push] sends is written
    back by [pull] as the lines [key=value] of the file's variables,
    which the parser reads as these variables again, provided [pull]
    works with the salt that [push] worked with. Each command builds
    its helper with [CryptoHelper(password)], which draws the salt:
    the condition is on these two draws. *)
Theorem push_then_pull password content rng rng' :
  well_formed_text password = true →
  well_formed_text content = true →
  parse_env content ≠ [] →
  Forall (λ kv, plain_value kv.2 = true) (parse_env content) →
  token_bytes 16 rng' = token_bytes 16 rng →
  ∃ encrypted_vars text,
    push password content rng = inr (Some encrypted_vars)
    ∧ key <$> encrypted_vars = (parse_env content).*1
    ∧ pull password encrypted_vars rng' = inr (Some text)
    ∧ text = join LF ((λ kv, kv.1 ++ EQUALS :: kv.2) <$> parse_env content)
    ∧ parse_env text = parse_env content.
Proof.
  intros Hpw Hcontent Hne Hplain Hsalt.
  destruct (utf8_decode_encode password Hpw) as (pw & Hpw' & _).
  set (salt := token_bytes 16 rng).
  set (crypto := CryptoHelper.mk salt (pbkdf2_hmac "sha256" pw salt 100000 32)).
  assert (Hinit : CryptoHelper.init password None rng = inr crypto).
  { unfold CryptoHelper.init, CryptoHelper._derive_key.
    by rewrite Hpw', !bind_inr. }
  assert (Hinit' : CryptoHelper.init password None rng' = inr crypto).
  { unfold CryptoHelper.init, CryptoHelper._derive_key.
    by rewrite Hsalt, Hpw', !bind_inr. }
  assert (Hkey : length (CryptoHelper.key crypto) = 32%nat)
    by apply pbkdf2_hmac_length.
  clearbody crypto.
  assert (Hwf : Forall (λ kv, well_formed_text kv.2 = true)
                  (parse_env content)).
  { apply Forall_forall. intros [k v] (_ & _ & _ & Hsub)%parse_env_elem.
    by apply (well_formed_text_sub content). }
  destruct (encrypt_variables_decrypt crypto (parse_env content)
              (after_draw 16 rng) Hkey Hwf) as (evs & Hevs & Hall2).
  exists evs. eexists. split.
  { unfold push. cbn zeta. rewrite bool_decide_eq_false_2 by done.
    by rewrite Hinit, bind_inr, Hevs, bind_inr. }
  (* what is sent, against the variables of the file *)
  assert (Hkeys : Forall (λ kv, plain_key kv.1 = true) (parse_env content)).
  { apply Forall_forall. by intros [k v] (? & _)%parse_env_elem. }
  assert (Hsent : evs ≠ []).
  { intros ->. by apply Forall2_nil_inv_r in Hall2. }
  revert Hplain Hkeys Hall2. generalize (parse_env content).
  intros vars Hplain Hkeys Hall2.
  assert (Hlines : pull_line crypto <$> evs
                   = (λ kv, kv.1 ++ EQUALS :: kv.2) <$> vars).
  { clear Hevs Hsent.
    induction Hall2 as [|kv var vars evs [Hk Hd] _ IH]; [done|].
    apply Forall_cons_1 in Hplain as [_ Hplain].
    apply Forall_cons_1 in Hkeys as [_ Hkeys].
    rewrite !fmap_cons, IH by done. f_equal.
    unfold pull_line. by rewrite Hd, Hk. }
  assert (Hdec : omap (decrypted crypto) evs = vars).
  { clear Hevs Hlines Hsent.
    induction Hall2 as [|[k v] var vars evs [Hk Hd] _ IH]; [done|].
    apply Forall_cons_1 in Hplain as [_ Hplain].
    apply Forall_cons_1 in Hkeys as [_ Hkeys].
    cbn [omap list_omap]. unfold decrypted at 1. cbn [fst snd] in *.
    by rewrite Hd, Hk, IH. }
  assert (Hcond : Forall (λ var,
                    (LF ∉ key var)
                    ∧ ∀ value,
                        CryptoHelper.decrypt crypto (encrypted_value var)
                          (value_nonce var) = inr value →
                        plain_key (key var) = true
                        ∧ plain_value value = true) evs).
  { clear Hevs Hlines Hdec Hsent.
    induction Hall2 as [|[k v] var vars evs [Hk Hd] _ IH]; [done|].
    apply Forall_cons_1 in Hplain as [Hv Hplain].
    apply Forall_cons_1 in Hkeys as [Hk' Hkeys].
    cbn [fst snd] in *. constructor; [|by apply IH].
    rewrite Hk, Hd. split.
    - unfold plain_key in Hk'.
      apply andb_true_iff in Hk' as [_ Hlf]. by apply bool_decide_eq_true in Hlf.
    - by intros value [= <-]. }
  split.
  { clear Hevs Hlines Hdec Hcond Hsent.
    induction Hall2 as [|kv var vars evs [Hk _] _ IH]; [done|].
    apply Forall_cons_1 in Hplain as [_ Hplain].
    apply Forall_cons_1 in Hkeys as [_ Hkeys].
    rewrite !fmap_cons, Hk. f_equal. by apply IH. }
  split.
  { unfold pull. destruct evs as [|var evs]; [done|].
    by rewrite Hinit', bind_inr. }
  split; [by rewrite Hlines|].
  rewrite parse_env_pull_lines by done. done.
Qed.
End EnvCrypto.

(** ** The keys of [push] and of [diff] *)

(** X22. Every key that [push] reads from a file has no space at either
    end, does not begin with [#] and holds neither [=] nor a newline,
    and no value holds a newline; keys and values are made of
    characters of the file. *)
Theorem parse_env_keys content :
  Forall (λ kv,
            Main.plain_key kv.1 = true
            ∧ (Main.LF ∉ kv.2)
            ∧ (∀ x, x ∈ kv.1 ∨ x ∈ kv.2 → x ∈ content))
    (Main.parse_env content).
Proof.
  apply Forall_forall. intros [k v] (Hk & Hv & Hsk & Hsv)%parse_env_elem.
  split; [done|]. split; [done|]. intros x [?|?]; [by apply Hsk|by apply Hsv].
Qed.

(** X23. The keys that [diff] compares with the remote ones are the keys
    that [push] would send for the same file. *)
Theorem local_keys_parse_env content :
  Main.local_keys content = list_to_set (Main.parse_env content).*1.
Proof.
  unfold Main.local_keys, Main.parse_env. by rewrite omap_diff_line.
Qed.


Lemma push_then_pull_witness :
  ∃ encrypted_vars text,
    Main.push (lib := Standin.lib) Standin.password Scenario4.content
      Standin.counter = inr (Some encrypted_vars)
    ∧ Main.key <$> encrypted_vars = (Main.parse_env Scenario4.content).*1
    ∧ Main.pull (lib := Standin.lib) Standin.password encrypted_vars
        Standin.counter = inr (Some text)
    ∧ text = Main.join Main.LF
               ((λ kv, kv.1 ++ Main.EQUALS :: kv.2)
                <$> Main.parse_env Scenario4.content)
    ∧ Main.parse_env text = Main.parse_env Scenario4.content.
Proof.
  apply (push_then_pull (lib := Standin.lib) (laws := standin_laws)
           Standin.password Scenario4.content Standin.counter
           Standin.counter).
  - vm_compute; reflexivity.
  - vm_compute; reflexivity.
  - intros H. vm_compute in H. discriminate H.
  - vm_compute. repeat constructor.
  - reflexivity.
Defined.
